(** * Weather agent (src/agents/tools.py): model and verified properties

    The development embeds the function-calling weather agent:
    - [F64]: the binary64 arithmetic that Python floats obey, as far as
      [c_to_f] uses it (multiplication, division, addition, [round(x, 1)]);
    - [Py]: the Python values, dictionaries, exceptions and text operations
      the agent relies on;
    - [Agent]: the outside world as a trace of events, the tools ([c_to_f],
      [geocode_city], [fetch_weather], [get_weather_by_city],
      [execute_tool]), [extract_usage], and [conversation_loop] over the
      lines of a console script;
    - [Sample]: a small concrete world to run the agent in.
    The properties follow, component by component. *)

From Stdlib Require Import ZArith List String Ascii Bool Lia.
Import ListNotations.

Local Open Scope Z_scope.

(* ====================================================================== *)
(** ** Binary64 floating point *)
(* ====================================================================== *)

Module F64.

(** A finite binary64 number is an integer multiple of [2^-1074]; its
    magnitude is stored in these units, next to the sign bit, so that the
    two zeros stay distinct as they are in Python. *)
Inductive float : Type :=
| NaN
| Inf (neg : bool)
| Fin (neg : bool) (m : N).

(** The number [1.0] in units of [2^-1074]. *)
Definition unit_one : Z := 2 ^ 1074.

(** The first magnitude past the finite range, [2^1024], in units. *)
Definition top : Z := 2 ^ 2098.

(** Width of the significand. *)
Definition prec : Z := 53.

(** Round-half-even of the rational [n / d] ([0 <= n], [0 < d]). *)
Definition rne (n d : Z) : Z :=
  let q := n / d in
  let r := n mod d in
  if 2 * r <? d then q
  else if d <? 2 * r then q + 1
  else if Z.even q then q else q + 1.

(** Round-to-nearest-even of the magnitude [n / d] units onto the binary64
    grid: below [2^53] units the grid step is one unit (subnormals and the
    first normal binade), above it the step is [2^(log2 - 52)]. *)
Definition round_mag (n d : Z) : Z :=
  let q := n / d in
  if q <? 2 ^ prec then rne n d
  else
    let s := Z.log2 q - (prec - 1) in
    rne n (d * 2 ^ s) * 2 ^ s.

(** A rounded magnitude past the finite range becomes an infinity. *)
Definition pack (neg : bool) (m : Z) : float :=
  if m <? top then Fin neg (Z.to_N m) else Inf neg.

Definition round (neg : bool) (n d : Z) : float := pack neg (round_mag n d).

(** The signed value of a finite number, in units. *)
Definition signed (neg : bool) (m : N) : Z :=
  if neg then - Z.of_N m else Z.of_N m.

(** [float(n)] for a Python integer (exact for the literals used here). *)
Definition of_Z (n : Z) : float := round (n <? 0) (Z.abs n * unit_one) 1.

(** The nearest double to the decimal [n / d], as a literal denotes it. *)
Definition of_decimal (n : Z) (d : Z) : float :=
  round (n <? 0) (Z.abs n * unit_one) d.

Definition fmul (x y : float) : float :=
  match x, y with
  | NaN, _ | _, NaN => NaN
  | Inf s1, Inf s2 => Inf (xorb s1 s2)
  | Inf s1, Fin s2 m | Fin s1 m, Inf s2 =>
      if N.eqb m 0 then NaN else Inf (xorb s1 s2)
  | Fin s1 m1, Fin s2 m2 =>
      round (xorb s1 s2) (Z.of_N m1 * Z.of_N m2) unit_one
  end.

(** IEEE division; Python's [/] raises [ZeroDivisionError] before reaching
    it when the divisor is zero, see [Py.py_truediv]. *)
Definition fdiv (x y : float) : float :=
  match x, y with
  | NaN, _ | _, NaN => NaN
  | Inf _, Inf _ => NaN
  | Inf s1, Fin s2 _ => Inf (xorb s1 s2)
  | Fin s1 _, Inf s2 => Fin (xorb s1 s2) 0
  | Fin s1 m1, Fin s2 m2 =>
      if N.eqb m2 0 then (if N.eqb m1 0 then NaN else Inf (xorb s1 s2))
      else round (xorb s1 s2) (Z.of_N m1 * unit_one) (Z.of_N m2)
  end.

Definition fadd (x y : float) : float :=
  match x, y with
  | NaN, _ | _, NaN => NaN
  | Inf s1, Inf s2 => if Bool.eqb s1 s2 then Inf s1 else NaN
  | Inf s, Fin _ _ | Fin _ _, Inf s => Inf s
  | Fin s1 m1, Fin s2 m2 =>
      let z := signed s1 m1 + signed s2 m2 in
      if z =? 0 then Fin (s1 && s2) 0
      else round (z <? 0) (Z.abs z) 1
  end.

(** [round(x, 1)] on a float: infinities and NaN round to themselves;
    otherwise the exact value is rounded half-even to a whole number [k] of
    tenths, and the decimal [k / 10] is converted back to the nearest
    double, keeping the sign of [x].  [None] is the [OverflowError] that
    CPython raises when that conversion overflows. *)
Definition round1 (x : float) : option float :=
  match x with
  | NaN => Some NaN
  | Inf s => Some (Inf s)
  | Fin s m =>
      let k := rne (10 * Z.of_N m) unit_one in
      match round s (k * unit_one) 10 with
      | Inf _ => None
      | r => Some r
      end
  end.

(** Comparison key: the signed position on the grid, the infinities placed
    past every finite number; both zeros have key [0]. *)
Definition key (x : float) : Z :=
  match x with
  | NaN => 0
  | Inf neg => if neg then - top else top
  | Fin neg m => signed neg m
  end.

Definition is_nan (x : float) : bool :=
  match x with NaN => true | _ => false end.

(** Python's [x <= y] on floats. *)
Definition fle (x y : float) : bool :=
  negb (is_nan x) && negb (is_nan y) && (key x <=? key y).

(** Python's [x == y] on floats. *)
Definition feq (x y : float) : bool :=
  negb (is_nan x) && negb (is_nan y) && (key x =? key y).

(** The magnitudes that are binary64 numbers: every integer below [2^53]
    units, and above it the multiples of the local grid step. *)
Definition valid_mag (m : Z) : bool :=
  (0 <=? m) && (m <? top) &&
  ((m <? 2 ^ prec) || (m mod 2 ^ (Z.log2 m - (prec - 1)) =? 0)).

Definition valid (x : float) : bool :=
  match x with
  | Fin _ m => valid_mag (Z.of_N m)
  | _ => true
  end.

(** Both are binary64 numbers, neither is NaN, and [x <= y]. *)
Definition float_le (x y : float) : Prop :=
  valid x = true /\ valid y = true /\ fle x y = true.

(** A magnitude with its sign applied. *)
Definition sign_of (neg : bool) (n : Z) : Z := if neg then - n else n.

End F64.


(* ====================================================================== *)
(** ** Python values, dictionaries and exceptions *)
(* ====================================================================== *)

Module Py.

Local Open Scope string_scope.

(** An exception: its class name and the text [str(e)] gives. *)
Inductive pyexn : Type := Exn (kind : string) (text : string).

Definition str_exn (e : pyexn) : string :=
  match e with Exn _ t => t end.

(** A computation that returns or raises. *)
Inductive result (A : Type) : Type :=
| Ok (a : A)
| Raise (e : pyexn).
Arguments Ok {A} a.
Arguments Raise {A} e.

Definition rbind {A B} (m : result A) (k : A -> result B) : result B :=
  match m with
  | Ok a => k a
  | Raise e => Raise e
  end.

Notation "'let!' x ':=' m 'in' k" := (rbind m (fun x => k))
  (at level 10, x name, m at level 100, k at level 200).

(** The values that JSON decoding and the agent's own code produce.  A
    dictionary keeps its keys in insertion order. *)
#[warnings="-register-all"]
Inductive pyval : Type :=
| PNone
| PBool (b : bool)
| PInt (n : Z)
| PFloat (x : F64.float)
| PStr (s : string)
| PList (l : list pyval)
| PDict (d : list (string * pyval)).

Definition dict : Type := list (string * pyval).

Fixpoint dict_get (d : dict) (k : string) : option pyval :=
  match d with
  | [] => None
  | (k', v) :: d' => if String.eqb k' k then Some v else dict_get d' k
  end.

(** [d[k] = v]: an existing key keeps its place, a new key goes last. *)
Fixpoint dict_set (d : dict) (k : string) (v : pyval) : dict :=
  match d with
  | [] => [(k, v)]
  | (k', v') :: d' =>
      if String.eqb k' k then (k', v) :: d' else (k', v') :: dict_set d' k v
  end.

(** [{**d, **e}]: the entries of [e] written into [d] in order. *)
Definition dict_update (d e : dict) : dict :=
  fold_left (fun acc kv => dict_set acc (fst kv) (snd kv)) e d.

(** A dictionary display [{k1: v1, ..., **e, ...}] is built left to right
    from the empty dictionary. *)
Definition dict_of (entries : dict) : dict := dict_update [] entries.

(** [d.get(k)] *)
Definition get (d : dict) (k : string) : pyval :=
  match dict_get d k with Some v => v | None => PNone end.

(** [d.setdefault(k, v)] as far as the dictionary is concerned. *)
Definition setdefault (d : dict) (k : string) (v : pyval) : dict :=
  match dict_get d k with Some _ => d | None => dict_set d k v end.

Definition is_zero (x : F64.float) : bool :=
  match x with F64.Fin _ m => N.eqb m 0 | _ => false end.

(** Truth value testing. *)
Definition truthy (v : pyval) : bool :=
  match v with
  | PNone => false
  | PBool b => b
  | PInt n => negb (Z.eqb n 0)
  | PFloat x => negb (is_zero x)
  | PStr s => negb (String.eqb s EmptyString)
  | PList l => match l with [] => false | _ => true end
  | PDict d => match d with [] => false | _ => true end
  end.

Definition is_none (v : pyval) : bool :=
  match v with PNone => true | _ => false end.

Definition type_name (v : pyval) : string :=
  match v with
  | PNone => "NoneType"
  | PBool _ => "bool"
  | PInt _ => "int"
  | PFloat _ => "float"
  | PStr _ => "str"
  | PList _ => "list"
  | PDict _ => "dict"
  end.

Definition attribute_error (v : pyval) (attr : string) : pyexn :=
  Exn "AttributeError"
      ("'" ++ type_name v ++ "' object has no attribute '" ++ attr ++ "'").

Definition operand_error (op : string) (v : pyval) : pyexn :=
  Exn "TypeError"
      ("unsupported operand type(s) for " ++ op ++ ": '" ++ type_name v
       ++ "' and 'int'").

Definition dquote : string := String (ascii_of_nat 34) EmptyString.

Definition concat_error (ty : string) : string :=
  "can only concatenate " ++ ty ++ " (not " ++ dquote ++ "int" ++ dquote
  ++ ") to " ++ ty.

(** [v.get(k)] on an arbitrary value: only dictionaries have the method. *)
Definition py_get (v : pyval) (k : string) : result pyval :=
  match v with
  | PDict d => Ok (get d k)
  | _ => Raise (attribute_error v "get")
  end.

(** [v.get(k, default)] *)
Definition py_get_default (v : pyval) (k : string) (dflt : pyval)
  : result pyval :=
  match v with
  | PDict d => Ok (match dict_get d k with Some x => x | None => dflt end)
  | _ => Raise (attribute_error v "get")
  end.

(** [v[0]] *)
Definition py_first (v : pyval) : result pyval :=
  match v with
  | PList (x :: _) => Ok x
  | PList [] => Raise (Exn "IndexError" "list index out of range")
  | PStr (String c _) => Ok (PStr (String c EmptyString))
  | PStr EmptyString => Raise (Exn "IndexError" "string index out of range")
  | PDict _ => Raise (Exn "KeyError" "0")
  | _ => Raise (Exn "TypeError"
                  ("'" ++ type_name v ++ "' object is not subscriptable"))
  end.

Fixpoint repeat_string (s : string) (n : nat) : string :=
  match n with O => EmptyString | S n' => s ++ repeat_string s n' end.

Fixpoint repeat_list {A} (l : list A) (n : nat) : list A :=
  match n with O => [] | S n' => l ++ repeat_list l n' end.

Definition int_of_bool (b : bool) : Z := if b then 1 else 0.

(** [v * n] for an int literal [n]. *)
Definition py_mul (v : pyval) (n : Z) : result pyval :=
  match v with
  | PFloat x => Ok (PFloat (F64.fmul x (F64.of_Z n)))
  | PInt a => Ok (PInt (a * n))
  | PBool b => Ok (PInt (int_of_bool b * n))
  | PStr s => Ok (PStr (repeat_string s (Z.to_nat n)))
  | PList l => Ok (PList (repeat_list l (Z.to_nat n)))
  | _ => Raise (operand_error "*" v)
  end.

(** The correctly rounded quotient of two ints, or [OverflowError]. *)
Definition int_truediv (a n : Z) : result pyval :=
  match F64.round (xorb (Z.ltb a 0) (Z.ltb n 0))
                  (Z.abs a * F64.unit_one) (Z.abs n) with
  | F64.Inf _ =>
      Raise (Exn "OverflowError" "integer division result too large for a float")
  | q => Ok (PFloat q)
  end.

(** [v / n] for a non-zero int literal [n]. *)
Definition py_truediv (v : pyval) (n : Z) : result pyval :=
  if Z.eqb n 0 then Raise (Exn "ZeroDivisionError" "division by zero")
  else
    match v with
    | PFloat x => Ok (PFloat (F64.fdiv x (F64.of_Z n)))
    | PInt a => int_truediv a n
    | PBool b => int_truediv (int_of_bool b) n
    | _ => Raise (operand_error "/" v)
    end.

(** [v + n] for an int literal [n]. *)
Definition py_add (v : pyval) (n : Z) : result pyval :=
  match v with
  | PFloat x => Ok (PFloat (F64.fadd x (F64.of_Z n)))
  | PInt a => Ok (PInt (a + n))
  | PBool b => Ok (PInt (int_of_bool b + n))
  | PStr _ =>
      Raise (Exn "TypeError" (concat_error "str"))
  | PList _ =>
      Raise (Exn "TypeError" (concat_error "list"))
  | _ => Raise (operand_error "+" v)
  end.

(** [round(v, 1)] *)
Definition py_round1 (v : pyval) : result pyval :=
  match v with
  | PFloat x =>
      match F64.round1 x with
      | Some r => Ok (PFloat r)
      | None =>
          Raise (Exn "OverflowError" "rounded value too large to represent")
      end
  | PInt a => Ok (PInt a)
  | PBool b => Ok (PInt (int_of_bool b))
  | _ => Raise (Exn "TypeError"
                  ("type " ++ type_name v ++ " doesn't define __round__ method"))
  end.

(** *** Text: [str.strip()] and [str.lower()]

    A character is a code point below 256. *)

Definition is_space (c : ascii) : bool :=
  let n := N_of_ascii c in
  (((9 <=? n) && (n <=? 13)) || ((28 <=? n) && (n <=? 32))
   || (n =? 133) || (n =? 160))%N.

Fixpoint lstrip (s : string) : string :=
  match s with
  | String c s' => if is_space c then lstrip s' else s
  | EmptyString => EmptyString
  end.

Fixpoint rstrip (s : string) : string :=
  match s with
  | String c s' =>
      match rstrip s' with
      | EmptyString => if is_space c then EmptyString else String c EmptyString
      | t => String c t
      end
  | EmptyString => EmptyString
  end.

Definition strip (s : string) : string := rstrip (lstrip s).

Definition lower_char (c : ascii) : ascii :=
  let n := N_of_ascii c in
  if (((65 <=? n) && (n <=? 90))
      || ((192 <=? n) && (n <=? 222) && negb (n =? 215)))%N
  then ascii_of_N (n + 32) else c.

Fixpoint lower (s : string) : string :=
  match s with
  | String c s' => String (lower_char c) (lower s')
  | EmptyString => EmptyString
  end.

Definition mem_string (s : string) (l : list string) : bool :=
  existsb (String.eqb s) l.

End Py.

(* ====================================================================== *)
(** ** The agent's environment and transcript *)
(* ====================================================================== *)

Module Agent.

Import Py.
Local Open Scope string_scope.
Local Open Scope list_scope.

(** What [requests.get] followed by [resp.raise_for_status()] and
    [resp.json()] can observe of one HTTP exchange. *)
Record response : Type := {
  status_code : Z;
  (** the [HTTPError] text [raise_for_status] uses for this response *)
  status_text : string;
  (** the outcome of [resp.json()] *)
  json_body : result pyval
}.

Inductive http_outcome : Type :=
| HttpRaises (e : pyexn)
| HttpReturns (r : response).

(** *** The completion object of the model service *)

(** The [completion_tokens_details] block.  Its [reasoning_tokens] is
    optional in the service's answer: the outer [None] stands for an object
    that lacks the attribute, [Some None] for the attribute bound to Python's
    [None] (what the client library binds when the answer leaves the field
    out), [Some (Some n)] for a count. *)
Record details_obj : Type := {
  attr_reasoning_tokens : option (option Z)
}.

(** A usage block.  The three counts of the block are integers when the
    attribute is there, and [None] stands for an attribute the object lacks;
    for the details block [None] also stands for an attribute bound to
    [None], which the truth test of [extract_usage] treats alike. *)
Record usage_obj : Type := {
  attr_prompt_tokens : option Z;
  attr_completion_tokens : option Z;
  attr_total_tokens : option Z;
  attr_completion_tokens_details : option details_obj
}.

(** [tc.id], [tc.function.name], [tc.function.arguments] *)
Record tool_call : Type := {
  tc_id : string;
  fn_name : string;
  fn_arguments : string
}.

(** [choice.message]; an absent [tool_calls] is the empty list. *)
Record chat_message : Type := {
  msg_content : option string;
  msg_tool_calls : list tool_call
}.

(** The attribute [usage] is always there and may be [None]. *)
Record completion : Type := {
  usage : option usage_obj;
  choices : list chat_message
}.

(** *** The transcript *)

(** An entry of the [tool_calls] list of an assistant turn. *)
Record call_entry : Type := {
  ce_id : string;
  ce_name : string;
  ce_arguments : string
}.

(** The dictionaries appended to [messages], by their shape. *)
Inductive message : Type :=
| System (content : string)
| User (content : string)
| AssistantCalls (tool_calls : list call_entry)
| Tool (tool_call_id : string) (content : string)
| Assistant (content : option string).

(** The record [extract_usage] returns.  The entry [reasoning] is whatever
    [getattr] found: [None] is Python's [None]. *)
Record usage_record : Type := {
  u_prompt : Z;
  u_completion : Z;
  u_reasoning : option Z;
  u_total : Z
}.

(** What the session writes to the console and to the logger. *)
Inductive output : Type :=
| OutBanner
| OutHelp
| OutUsageFirst (u : usage_record)
| OutUsageSecond (u : usage_record) (cumulative_total : Z)
| OutUsageSingle (cumulative_total : Z)
| OutContent (content : option string)
| OutTotalsLog (prompt completion reasoning total : Z)
| OutTotals (prompt completion reasoning total : Z).

(** Everything the program does to the outside, in order. *)
Inductive event : Type :=
| EvHttp (url : string) (params : dict) (timeout : Z) (out : http_outcome)
| EvModel (messages : list message) (with_tools : bool)
          (out : result completion)
| EvInput (line : option string)
| EvPrint (o : output).

Definition trace : Type := list event.

(** The outside world: each external call is answered from the history of
    the run so far and the request. *)
Record env : Type := {
  requests_get : trace -> string -> dict -> http_outcome;
  chat_create : trace -> list message -> bool -> result completion;
  json_loads : string -> result pyval;
  json_dumps : pyval -> string
}.

(** *** Effects: a trace of events, and exceptions *)

Definition M (A : Type) : Type := trace -> result A * trace.

Definition ret {A} (a : A) : M A := fun t => (Ok a, t).

Definition raise {A} (e : pyexn) : M A := fun t => (Raise e, t).

Definition bind {A B} (m : M A) (k : A -> M B) : M B :=
  fun t =>
    match m t with
    | (Ok a, t') => k a t'
    | (Raise e, t') => (Raise e, t')
    end.

Definition lift {A} (r : result A) : M A := fun t => (r, t).

(** [try: body  except Exception as e: handler(e)] *)
Definition try_except {A} (body : M A) (handler : pyexn -> M A) : M A :=
  fun t =>
    match body t with
    | (Ok a, t') => (Ok a, t')
    | (Raise e, t') => handler e t'
    end.

Definition emit (ev : event) : M unit := fun t => (Ok tt, t ++ [ev]).

Definition print (o : output) : M unit := emit (EvPrint o).

Notation "x <- m ;; k" := (bind m (fun x => k))
  (at level 61, m at next level, right associativity).
Notation "m ;;; k" := (bind m (fun _ => k))
  (at level 61, right associativity).

(** [requests.get(url, params=params, timeout=timeout)] *)
Definition http_get (E : env) (url : string) (params : dict) (timeout : Z)
  : M response :=
  fun t =>
    let out := requests_get E t url params in
    (match out with HttpRaises e => Raise e | HttpReturns r => Ok r end,
     t ++ [EvHttp url params timeout out]).

(** [resp.raise_for_status()]: an [HTTPError] for a 4xx or 5xx status. *)
Definition raise_for_status (r : response) : result unit :=
  if ((400 <=? status_code r) && (status_code r <? 600))%Z
  then Raise (Exn "HTTPError" (status_text r))
  else Ok tt.

(** [client.chat.completions.create(model=MODEL, messages=..., ...)] *)
Definition create (E : env) (messages : list message) (with_tools : bool)
  : M completion :=
  fun t =>
    let out := chat_create E t messages with_tools in
    (out, t ++ [EvModel messages with_tools out]).

(* ---------------------------------------------------------------------- *)
(** *** Tool implementation *)
(* ---------------------------------------------------------------------- *)

(** [round((c * 9 / 5) + 32, 1)] *)
Definition c_to_f (c : pyval) : result pyval :=
  let! a := py_mul c 9 in
  let! b := py_truediv a 5 in
  let! s := py_add b 32 in
  py_round1 s.

(** The float [(c * 9 / 5) + 32], before [round]. *)
Definition celsius_sum (c : F64.float) : F64.float :=
  F64.fadd (F64.fdiv (F64.fmul c (F64.of_Z 9)) (F64.of_Z 5)) (F64.of_Z 32).

Definition geocoding_url : string :=
  "https://geocoding-api.open-meteo.com/v1/search".

Definition forecast_url : string := "https://api.open-meteo.com/v1/forecast".

Definition geocode_city (E : env) (city : pyval) : M dict :=
  try_except
    (resp <- http_get E geocoding_url
               (dict_of [("name", city); ("count", PInt 1);
                         ("language", PStr "en"); ("format", PStr "json")])
               8 ;;
     lift (raise_for_status resp) ;;;
     data <- lift (json_body resp) ;;
     results <- lift (py_get data "results") ;;
     first <- lift (py_first (if truthy results then results
                              else PList [PDict []])) ;;
     if negb (truthy first) then
       ret (dict_of [("error", PStr "city_not_found"); ("city", city)])
     else
       resolved_name <- lift (py_get first "name") ;;
       country <- lift (py_get first "country") ;;
       latitude <- lift (py_get first "latitude") ;;
       longitude <- lift (py_get first "longitude") ;;
       ret (dict_of [("city", city); ("resolved_name", resolved_name);
                     ("country", country); ("latitude", latitude);
                     ("longitude", longitude)]))
    (fun e => ret (dict_of [("error", PStr (str_exn e)); ("city", city)])).

Definition fetch_weather (E : env) (latitude longitude : pyval) : M dict :=
  try_except
    (resp <- http_get E forecast_url
               (dict_of [("latitude", latitude); ("longitude", longitude);
                         ("current", PStr "temperature_2m")])
               8 ;;
     lift (raise_for_status resp) ;;;
     payload <- lift (json_body resp) ;;
     current <- lift (py_get_default payload "current" (PDict [])) ;;
     temp_c <- lift (py_get current "temperature_2m") ;;
     if is_none temp_c then
       ret (dict_of [("error", PStr "temperature_unavailable");
                     ("latitude", latitude); ("longitude", longitude)])
     else
       temp_f <- lift (c_to_f temp_c) ;;
       timestamp <- lift (py_get current "time") ;;
       ret (dict_of [("latitude", latitude); ("longitude", longitude);
                     ("temperature_c", temp_c); ("temperature_f", temp_f);
                     ("timestamp", timestamp)]))
    (fun e => ret (dict_of [("error", PStr (str_exn e));
                            ("latitude", latitude);
                            ("longitude", longitude)])).

Definition get_weather_by_city (E : env) (city : pyval) : M dict :=
  geo <- geocode_city E city ;;
  if truthy (get geo "error") then
    ret (dict_of (("city", city) :: geo))
  else
    let lat := get geo "latitude" in
    let lon := get geo "longitude" in
    if is_none lat || is_none lon then
      ret (dict_of (("city", city) :: ("error", PStr "coordinates_missing")
                    :: geo))
    else
      weather <- fetch_weather E lat lon ;;
      ret (dict_of ((("city", city) :: geo) ++ weather)).

(** Binding [**args] to the one parameter [city] of
    [get_weather_by_city]: any other keyword, or no [city], is a
    [TypeError] raised at the call. *)
Definition bind_city (args : dict) : result pyval :=
  match filter (fun kv => negb (String.eqb (fst kv) "city")) args with
  | (k, _) :: _ =>
      Raise (Exn "TypeError"
               ("get_weather_by_city() got an unexpected keyword argument '"
                ++ k ++ "'")%string)
  | [] =>
      match dict_get args "city" with
      | Some v => Ok v
      | None =>
          Raise (Exn "TypeError"
                   "get_weather_by_city() missing 1 required positional argument: 'city'")
      end
  end.

Definition execute_tool (E : env) (name : string) (args : dict) : M dict :=
  if String.eqb name "get_weather_by_city" then
    city <- lift (bind_city args) ;;
    get_weather_by_city E city
  else
    ret (dict_of [("error", PStr "unknown_tool"); ("name", PStr name)]).

(* ---------------------------------------------------------------------- *)
(** *** Usage accounting *)
(* ---------------------------------------------------------------------- *)

(** [getattr(u, name, default)] for a token count of the usage block;
    [None] has no attribute, so the default applies to it as well. *)
Definition getattr (u : option usage_obj) (attr : usage_obj -> option Z)
    (default : Z) : Z :=
  match u with
  | Some o => match attr o with Some n => n | None => default end
  | None => default
  end.

(** [getattr(details, "reasoning_tokens", 0) if details else 0]: the
    default is for a details block that is missing or lacks the attribute; an
    attribute that is there is returned as it is bound, [None] included. *)
Definition extract_usage (c : completion) : usage_record :=
  let u := usage c in
  let details :=
    match u with
    | Some o => attr_completion_tokens_details o
    | None => None
    end in
  let reasoning :=
    match details with
    | Some d =>
        match attr_reasoning_tokens d with
        | Some bound => bound
        | None => Some 0
        end
    | None => Some 0
    end in
  {| u_prompt := getattr u attr_prompt_tokens 0;
     u_completion := getattr u attr_completion_tokens 0;
     u_reasoning := reasoning;
     u_total := getattr u attr_total_tokens 0 |}.

(* ---------------------------------------------------------------------- *)
(** *** Conversation runner *)
(* ---------------------------------------------------------------------- *)

(** The local variables of [conversation_loop]. *)
Record state : Type := {
  messages : list message;
  total_tokens : Z;
  total_prompt : Z;
  total_completion : Z;
  total_reasoning : Z
}.

Definition system_prompt : string :=
  ("You are a concise weather assistant. To answer weather questions, call the function get_weather_by_city with a city name (optionally with region/country). After tool results are provided, summarize ONLY the current temperature in "
   ++ String (ascii_of_nat 176) "F and location name in one short sentence.")%string.

Definition initial_state : state :=
  {| messages := [System system_prompt];
     total_tokens := 0; total_prompt := 0;
     total_completion := 0; total_reasoning := 0 |}.

(** The loop's code runs over its variables and the trace; a raised
    exception leaves both as they were when it was raised. *)
Definition L (A : Type) : Type := state -> trace -> result A * state * trace.

Definition lret {A} (a : A) : L A := fun st t => (Ok a, st, t).

Definition lbind {A B} (m : L A) (k : A -> L B) : L B :=
  fun st t =>
    match m st t with
    | (Ok a, st', t') => k a st' t'
    | (Raise e, st', t') => (Raise e, st', t')
    end.

(** Code that does not touch the loop's variables. *)
Definition run {A} (m : M A) : L A :=
  fun st t => let (r, t') := m t in (r, st, t').

Definition read {A} (f : state -> A) : L A := fun st t => (Ok (f st), st, t).

Notation "x <~ m ;; k" := (lbind m (fun x => k))
  (at level 61, m at next level, right associativity).
Notation "m ;;~ k" := (lbind m (fun _ => k))
  (at level 61, right associativity).

(** The variables after [messages.extend(ms)]. *)
Definition push (st : state) (ms : list message) : state :=
  {| messages := messages st ++ ms;
     total_tokens := total_tokens st; total_prompt := total_prompt st;
     total_completion := total_completion st;
     total_reasoning := total_reasoning st |}.

(** What [total_reasoning += u["reasoning"]] adds: nothing when the entry
    is [None], since the statement raises before it assigns. *)
Definition reasoning_credit (u : usage_record) : Z :=
  match u_reasoning u with
  | Some n => n
  | None => 0
  end.

(** The variables after
    [total_tokens += u["total"]; total_prompt += u["prompt"];
     total_completion += u["completion"]; total_reasoning += u["reasoning"]],
    whether the last statement assigns or raises. *)
Definition credit (st : state) (u : usage_record) : state :=
  {| messages := messages st;
     total_tokens := total_tokens st + u_total u;
     total_prompt := total_prompt st + u_prompt u;
     total_completion := total_completion st + u_completion u;
     total_reasoning := total_reasoning st + reasoning_credit u |}.

(** [int += None] *)
Definition none_operand : pyexn :=
  Exn "TypeError" "unsupported operand type(s) for +=: 'int' and 'NoneType'".

(** [messages.append(m)] *)
Definition append (m : message) : L unit :=
  fun st t => (Ok tt, push st [m], t).

(** [messages.extend(ms)] *)
Definition extend (ms : list message) : L unit :=
  fun st t => (Ok tt, push st ms, t).

(** The four [+=] of the usage line, in the order of the source: the
    first three add integers; the fourth raises [TypeError] on a [None]
    entry, with the first three totals already updated. *)
Definition add_usage (u : usage_record) : L unit :=
  fun st t =>
    match u_reasoning u with
    | Some _ => (Ok tt, credit st u, t)
    | None => (Raise none_operand, credit st u, t)
    end.

(** [completion.choices[0].message] *)
Definition first_choice (c : completion) : result chat_message :=
  match choices c with
  | m :: _ => Ok m
  | [] => Raise (Exn "IndexError" "list index out of range")
  end.

(** [json.loads(fn.arguments) if fn.arguments else {}] *)
Definition parse_arguments (E : env) (tc : tool_call) : result pyval :=
  if negb (String.eqb (fn_arguments tc) EmptyString)
  then json_loads E (fn_arguments tc)
  else Ok (PDict []).

(** [args.setdefault("city", city_query)]: only a dictionary has the
    method. *)
Definition backfill (args : pyval) (city_query : string) : result dict :=
  match args with
  | PDict d => Ok (setdefault d "city" (PStr city_query))
  | _ => Raise (attribute_error args "setdefault")
  end.

(** One pass of the body of [for tc in msg.tool_calls]: the entry added to
    the assistant turn and the tool turn added to the outputs. *)
Definition dispatch (E : env) (city_query : string) (tc : tool_call)
  : M (call_entry * message) :=
  parsed <- lift (parse_arguments E tc) ;;
  args <- lift (backfill parsed city_query) ;;
  result <- execute_tool E (fn_name tc) args ;;
  ret ({| ce_id := tc_id tc; ce_name := fn_name tc;
          ce_arguments := json_dumps E (PDict args) |},
       Tool (tc_id tc) (json_dumps E (PDict result))).

(** The [for] loop: [assistant_call_msg["tool_calls"]] and
    [tool_output_messages] as they stand after it. *)
Fixpoint tool_round (E : env) (city_query : string) (tcs : list tool_call)
  : M (list call_entry * list message) :=
  match tcs with
  | [] => ret ([], [])
  | tc :: rest =>
      p <- dispatch E city_query tc ;;
      r <- tool_round E city_query rest ;;
      ret (fst p :: fst r, snd p :: snd r)
  end.

(** A model call over the transcript as it stands. *)
Definition call_model (E : env) (with_tools : bool) : L completion :=
  ms <~ read messages ;;
  run (create E ms with_tools).

(** The part of the loop body after command handling: one user turn. *)
Definition turn (E : env) (city_query : string) : L unit :=
  append (User city_query) ;;~
  first <~ call_model E true ;;
  let u1 := extract_usage first in
  add_usage u1 ;;~
  run (print (OutUsageFirst u1)) ;;~
  msg <~ run (lift (first_choice first)) ;;
  match msg_tool_calls msg with
  | _ :: _ =>
      r <~ run (tool_round E city_query (msg_tool_calls msg)) ;;
      append (AssistantCalls (fst r)) ;;~
      extend (snd r) ;;~
      second <~ call_model E false ;;
      let u2 := extract_usage second in
      add_usage u2 ;;~
      final_msg <~ run (lift (first_choice second)) ;;
      append (Assistant (msg_content final_msg)) ;;~
      run (print (OutContent (msg_content final_msg))) ;;~
      cumulative <~ read total_tokens ;;
      run (print (OutUsageSecond u2 cumulative))
  | [] =>
      append (Assistant (msg_content msg)) ;;~
      run (print (OutContent (msg_content msg))) ;;~
      cumulative <~ read total_tokens ;;
      run (print (OutUsageSingle cumulative))
  end.

Definition exit_commands : list string := ["/exit"; "exit"; "quit"; ":q"].

Definition help_commands : list string := ["/help"; "help"; "?"].

(** How an iteration of [while True] ends. *)
Inductive control : Type := Continue | Break.

(** One iteration, on the line [input] returns ([None]: [EOFError]). *)
Definition loop_body (E : env) (line : option string) : L control :=
  run (emit (EvInput line)) ;;~
  match line with
  | None => lret Break
  | Some raw =>
      let city_query := strip raw in
      if String.eqb city_query EmptyString then lret Break
      else
        let lower := lower city_query in
        if mem_string lower exit_commands then lret Break
        else if mem_string lower help_commands then
          run (print OutHelp) ;;~ lret Continue
        else
          turn E city_query ;;~ lret Continue
  end.

(** The [while True] loop over the lines the console still holds; the end
    of the script is the end of input. *)
Fixpoint while_true (E : env) (lines : list string) : L unit :=
  match lines with
  | [] => loop_body E None ;;~ lret tt
  | line :: rest =>
      c <~ loop_body E (Some line) ;;
      match c with
      | Break => lret tt
      | Continue => while_true E rest
      end
  end.

(** [conversation_loop()], on the lines the console will deliver: the
    locals start from [initial_state]. *)
Definition conversation_loop (E : env) (lines : list string)
  : trace -> result unit * state * trace :=
  (run (print OutBanner) ;;~
   while_true E lines ;;~
   st <~ read (fun st => st) ;;
   run (print (OutTotalsLog (total_prompt st) (total_completion st)
                 (total_reasoning st) (total_tokens st))) ;;~
   run (print (OutTotals (total_prompt st) (total_completion st)
                 (total_reasoning st) (total_tokens st))))
    initial_state.

(* ---------------------------------------------------------------------- *)
(** *** Reading a trace *)
(* ---------------------------------------------------------------------- *)

(** The usage records of the model calls that returned, in order. *)
Fixpoint usage_log (t : trace) : list usage_record :=
  match t with
  | [] => []
  | EvModel _ _ (Ok c) :: t' => extract_usage c :: usage_log t'
  | _ :: t' => usage_log t'
  end.

Definition sum_by (f : usage_record -> Z) (us : list usage_record) : Z :=
  fold_right (fun u acc => f u + acc) 0 us.

(** The number of model calls, returned or failed. *)
Fixpoint model_calls (t : trace) : nat :=
  match t with
  | [] => O
  | EvModel _ _ _ :: t' => S (model_calls t')
  | _ :: t' => model_calls t'
  end.

(** The URLs requested over HTTP, in order. *)
Fixpoint http_urls (t : trace) : list string :=
  match t with
  | [] => []
  | EvHttp url _ _ _ :: t' => url :: http_urls t'
  | _ :: t' => http_urls t'
  end.

(** The totals of [st'] are those of [st] plus the records [us], a [None]
    reasoning entry adding nothing. *)
Definition grown_by (st st' : state) (us : list usage_record) : Prop :=
  total_prompt st' = total_prompt st + sum_by u_prompt us
  /\ total_completion st' = total_completion st + sum_by u_completion us
  /\ total_reasoning st' = total_reasoning st + sum_by reasoning_credit us
  /\ total_tokens st' = total_tokens st + sum_by u_total us.

Definition state_of {A} (x : result A * state * trace) : state :=
  snd (fst x).

Definition trace_of {A} (x : result A * state * trace) : trace := snd x.

Definition is_http (ev : event) : bool :=
  match ev with EvHttp _ _ _ _ => true | _ => false end.

(** The query parameters [geocode_city] sends for a city. *)
Definition geocoding_params (city : pyval) : dict :=
  dict_of [("name", city); ("count", PInt 1);
           ("language", PStr "en"); ("format", PStr "json")].

(** The query parameters [fetch_weather] sends for a position. *)
Definition forecast_params (latitude longitude : pyval) : dict :=
  dict_of [("latitude", latitude); ("longitude", longitude);
           ("current", PStr "temperature_2m")].

(** Some entry of the dictionary holds the text [tag]. *)
Definition has_tag (d : dict) (tag : string) : Prop :=
  In (PStr tag) (map snd d).

Definition tool_call_id_of (m : message) : option string :=
  match m with Tool id _ => Some id | _ => None end.

Definition all_space (s : string) : bool :=
  forallb is_space (list_ascii_of_string s).

(** The lines read from the console, in order ([None]: end of input). *)
Fixpoint inputs (t : trace) : list (option string) :=
  match t with
  | [] => []
  | EvInput l :: t' => l :: inputs t'
  | _ :: t' => inputs t'
  end.

(** The timeouts given to the HTTP requests, in order. *)
Fixpoint http_timeouts (t : trace) : list Z :=
  match t with
  | [] => []
  | EvHttp _ _ timeout _ :: t' => timeout :: http_timeouts t'
  | _ :: t' => http_timeouts t'
  end.

(** The transcript after the system turn, when no turn is under way: a
    sequence of exchanges, each a user turn answered by an assistant text
    turn, either directly or after an assistant turn with tool calls and
    one tool turn per call, under the call's id. *)
Inductive exchanges : list message -> Prop :=
| exchanges_nil : exchanges []
| exchanges_direct (q : string) (c : option string) (rest : list message) :
    exchanges rest ->
    exchanges (User q :: Assistant c :: rest)
| exchanges_tools (q : string) (calls : list call_entry)
    (tools : list message) (c : option string) (rest : list message) :
    calls <> [] ->
    map tool_call_id_of tools = map (fun e => Some (ce_id e)) calls ->
    exchanges rest ->
    exchanges (User q :: AssistantCalls calls :: tools ++ Assistant c :: rest).

(** What a turn that was cut short leaves at the end of the transcript:
    the user turn alone, or with the tool round after it. *)
Definition unanswered (p : list message) : Prop :=
  (exists q, p = [User q])
  \/ (exists q calls tools,
        p = User q :: AssistantCalls calls :: tools
        /\ calls <> []
        /\ map tool_call_id_of tools = map (fun e => Some (ce_id e)) calls).

(** The texts of the user turns, in order. *)
Fixpoint user_texts (ms : list message) : list string :=
  match ms with
  | [] => []
  | User q :: ms' => q :: user_texts ms'
  | _ :: ms' => user_texts ms'
  end.

(** A text the loop hands to the model: not blank, already stripped, and
    no command. *)
Definition is_query (q : string) : Prop :=
  q <> EmptyString
  /\ strip q = q
  /\ mem_string (lower q) exit_commands = false
  /\ mem_string (lower q) help_commands = false.

(** Every cumulative total printed, per turn or at the end, is the sum of
    the totals of the model calls that returned before it; [acc] is that
    sum for the events already passed. *)
Fixpoint cumulative_ok (acc : Z) (t : trace) : Prop :=
  match t with
  | [] => True
  | EvModel _ _ (Ok c) :: t' =>
      cumulative_ok (acc + u_total (extract_usage c)) t'
  | EvPrint (OutUsageSecond _ cum) :: t' => cum = acc /\ cumulative_ok acc t'
  | EvPrint (OutUsageSingle cum) :: t' => cum = acc /\ cumulative_ok acc t'
  | EvPrint (OutTotalsLog _ _ _ tot) :: t' =>
      tot = acc /\ cumulative_ok acc t'
  | EvPrint (OutTotals _ _ _ tot) :: t' => tot = acc /\ cumulative_ok acc t'
  | _ :: t' => cumulative_ok acc t'
  end.

(** The last turn of a message list is a user turn / a tool turn. *)
Definition ends_with_user (ms : list message) : Prop :=
  exists front q, ms = front ++ [User q].

Definition ends_with_tool (ms : list message) : Prop :=
  exists front id content, ms = front ++ [Tool id content].

(** Every model request carries the system prompt first; the tool schema
    is on offer exactly on the requests that end with a user turn, and the
    requests without it end with a tool turn. *)
Fixpoint requests_ok (t : trace) : Prop :=
  match t with
  | [] => True
  | EvModel ms with_tools _ :: t' =>
      (exists body, ms = System system_prompt :: body)
      /\ (if with_tools then ends_with_user ms else ends_with_tool ms)
      /\ requests_ok t'
  | _ :: t' => requests_ok t'
  end.

(** No count of the record is negative; a [None] entry is no count. *)
Definition nonneg_usage (u : usage_record) : Prop :=
  0 <= u_prompt u /\ 0 <= u_completion u
  /\ match u_reasoning u with Some n => 0 <= n | None => True end
  /\ 0 <= u_total u.

(** The current block [fetch_weather] reads: [payload.get("current", {})]. *)
Definition current_of (body : dict) : pyval :=
  match dict_get body "current" with Some x => x | None => PDict [] end.

(** A line that ends the loop: the end of input, a blank line, an exit
    command. *)
Definition closes (line : option string) : bool :=
  match line with
  | None => true
  | Some raw =>
      String.eqb (strip raw) EmptyString
      || mem_string (lower (strip raw)) exit_commands
  end.

(** The tool invocations the model asked for on the requests that offered
    the tool. *)
Fixpoint invocations (t : trace) : nat :=
  match t with
  | [] => O
  | EvModel _ true (Ok c) :: t' =>
      (match first_choice c with
       | Ok m => List.length (msg_tool_calls m)
       | Raise _ => O
       end + invocations t')%nat
  | _ :: t' => invocations t'
  end.

(** The model service never reports a negative count. *)
Definition counts_nonneg (E : env) : Prop :=
  forall t ms with_tools c,
    chat_create E t ms with_tools = Ok c -> nonneg_usage (extract_usage c).

(** No total of [b] is below that of [a]. *)
Definition no_less (a b : state) : Prop :=
  total_prompt a <= total_prompt b
  /\ total_completion a <= total_completion b
  /\ total_reasoning a <= total_reasoning b
  /\ total_tokens a <= total_tokens b.

(** *** What the loop keeps true between two iterations *)

(** No turn is under way: the transcript is the system prompt and complete
    exchanges. *)
Definition settled (st : state) (t : trace) : Prop :=
  exists body,
    messages st = System system_prompt :: body /\ exchanges body.

(** An exception cut a turn short. *)
Definition interrupted (st : state) (t : trace) : Prop :=
  exists body p,
    messages st = System system_prompt :: body ++ p
    /\ exchanges body /\ unanswered p.

(** The printed totals are right so far, and [total_tokens] is the sum for
    the whole trace. *)
Definition tallied (st : state) (t : trace) : Prop :=
  cumulative_ok 0 t /\ total_tokens st = sum_by u_total (usage_log t).

(** The requests are well formed so far, and the transcript starts with
    the system prompt. *)
Definition well_asked (st : state) (t : trace) : Prop :=
  requests_ok t /\ exists body, messages st = System system_prompt :: body.

(** *** What a tool round hands to the tool *)

(** [served E q tcs t r t']: how the [for] loop over the invocations [tcs]
    goes from the trace [t] when the turn's user text is [q].  An
    invocation is reached when all before it returned; it stops the round
    when its arguments do not decode or decode to something that is no
    mapping; otherwise the decoded mapping with "city" defaulted to [q] is
    what [execute_tool] is given, under the invocation's name.  [r] is
    the outcome of the round, with the entries recorded for the assistant
    turn and the tool turns, and [t'] is the trace after it. *)
Inductive served (E : env) (q : string)
  : list tool_call -> trace -> result (list call_entry * list message)
    -> trace -> Prop :=
| served_none (t : trace) : served E q [] t (Ok ([], [])) t
| served_undecoded (tc : tool_call) (tcs : list tool_call) (t : trace)
    (e : pyexn) :
    parse_arguments E tc = Raise e ->
    served E q (tc :: tcs) t (Raise e) t
| served_no_mapping (tc : tool_call) (tcs : list tool_call) (t : trace)
    (v : pyval) :
    parse_arguments E tc = Ok v ->
    (forall d, v <> PDict d) ->
    served E q (tc :: tcs) t (Raise (attribute_error v "setdefault")) t
| served_raised (tc : tool_call) (tcs : list tool_call) (t t1 : trace)
    (d : dict) (e : pyexn) :
    parse_arguments E tc = Ok (PDict d) ->
    execute_tool E (fn_name tc) (setdefault d "city" (PStr q)) t
    = (Raise e, t1) ->
    served E q (tc :: tcs) t (Raise e) t1
| served_cut (tc : tool_call) (tcs : list tool_call) (t t1 t2 : trace)
    (d result : dict) (e : pyexn) :
    parse_arguments E tc = Ok (PDict d) ->
    execute_tool E (fn_name tc) (setdefault d "city" (PStr q)) t
    = (Ok result, t1) ->
    served E q tcs t1 (Raise e) t2 ->
    served E q (tc :: tcs) t (Raise e) t2
| served_next (tc : tool_call) (tcs : list tool_call) (t t1 t2 : trace)
    (d result : dict) (calls : list call_entry) (tools : list message) :
    parse_arguments E tc = Ok (PDict d) ->
    execute_tool E (fn_name tc) (setdefault d "city" (PStr q)) t
    = (Ok result, t1) ->
    served E q tcs t1 (Ok (calls, tools)) t2 ->
    served E q (tc :: tcs) t
      (Ok ({| ce_id := tc_id tc; ce_name := fn_name tc;
              ce_arguments :=
                json_dumps E (PDict (setdefault d "city" (PStr q))) |}
           :: calls,
           Tool (tc_id tc) (json_dumps E (PDict result)) :: tools))
      t2.

(** The city names sent to the geocoder, in order. *)
Fixpoint geocoded (t : trace) : list pyval :=
  match t with
  | [] => []
  | EvHttp url params _ _ :: t' =>
      if String.eqb url geocoding_url then
        match dict_get params "name" with
        | Some city => city :: geocoded t'
        | None => geocoded t'
        end
      else geocoded t'
  | _ :: t' => geocoded t'
  end.

End Agent.

(* ====================================================================== *)
(** ** A sample world *)
(* ====================================================================== *)

Module Sample.

Import Py Agent.
Local Open Scope string_scope.
Local Open Scope list_scope.

Definition tokyo : pyval :=
  PDict [("name", PStr "Tokyo"); ("country", PStr "Japan");
         ("latitude", PFloat (F64.of_decimal 356895 10000));
         ("longitude", PFloat (F64.of_decimal 13969171 100000))].

Definition twenty_degrees : pyval :=
  PDict [("current",
          PDict [("time", PStr "2025-01-01T00:00");
                 ("temperature_2m", PFloat (F64.of_Z 20))])].

Definition ok_response (body : pyval) : http_outcome :=
  HttpReturns {| status_code := 200; status_text := EmptyString;
                 json_body := Ok body |}.

(** The geocoder knows Tokyo, times out on Atlantis and finds nothing
    else; the forecast service reports 20 degrees Celsius everywhere. *)
Definition sample_get (t : trace) (url : string) (params : dict)
  : http_outcome :=
  if String.eqb url geocoding_url then
    match dict_get params "name" with
    | Some (PStr "Tokyo") => ok_response (PDict [("results", PList [tokyo])])
    | Some (PStr "Atlantis") =>
        HttpRaises (Exn "ReadTimeout" "Read timed out. (read timeout=8)")
    | _ => ok_response (PDict [])
    end
  else ok_response twenty_degrees.

Definition sample_usage (p c r : Z) : option usage_obj :=
  Some {| attr_prompt_tokens := Some p; attr_completion_tokens := Some c;
          attr_total_tokens := Some (p + c);
          attr_completion_tokens_details :=
            Some {| attr_reasoning_tokens := Some (Some r) |} |}.

(** A response that asks for the tool without naming a city. *)
Definition tool_request : completion :=
  {| usage := sample_usage 50 12 0;
     choices := [{| msg_content := None;
                    msg_tool_calls :=
                      [{| tc_id := "call_1";
                          fn_name := "get_weather_by_city";
                          fn_arguments := "{}" |}] |}] |}.

(** A response that answers in text, and asks for the tool once more; it
    has no usage block. *)
Definition answer : completion :=
  {| usage := None;
     choices := [{| msg_content := Some "It is 68.0 F in Tokyo.";
                    msg_tool_calls :=
                      [{| tc_id := "call_2";
                          fn_name := "get_weather_by_city";
                          fn_arguments := "{}" |}] |}] |}.

Definition greeting : completion :=
  {| usage := sample_usage 40 9 0;
     choices := [{| msg_content := Some "Which city?";
                    msg_tool_calls := [] |}] |}.

(** The model asks for the tool whenever the tool is on offer, except for a
    greeting; it answers in text otherwise, and is unreachable once the
    user names the city Nowhere. *)
Definition sample_create (t : trace) (ms : list message) (with_tools : bool)
  : result completion :=
  match last ms (System EmptyString) with
  | User "Nowhere" => Raise (Exn "APIConnectionError" "Connection error.")
  | User "hello" => Ok greeting
  | _ => if with_tools then Ok tool_request else Ok answer
  end.

Definition sample_loads (s : string) : result pyval :=
  if String.eqb s "{}" then Ok (PDict [])
  else Raise (Exn "JSONDecodeError" "Expecting value: line 1 column 1 (char 0)").

(** A stand-in for [json.dumps]: the keys of a dictionary, in order. *)
Definition sample_dumps (v : pyval) : string :=
  match v with
  | PDict d => String.concat "," (map fst d)
  | _ => "null"
  end.

Definition world : env :=
  {| requests_get := sample_get;
     chat_create := sample_create;
     json_loads := sample_loads;
     json_dumps := sample_dumps |}.

(** A geocoder whose match for every name has no coordinates. *)
Definition unplaced : env :=
  {| requests_get := fun _ _ _ =>
       ok_response
         (PDict [("results",
                  PList [PDict [("name", PStr "Null Island");
                                ("country", PNone)]])]);
     chat_create := sample_create;
     json_loads := sample_loads;
     json_dumps := sample_dumps |}.

(** A forecast service without a reading (and a geocoder to match). *)
Definition no_reading : env :=
  {| requests_get := fun _ _ _ =>
       ok_response (PDict [("current", PDict [("time", PStr "now")])]);
     chat_create := sample_create;
     json_loads := sample_loads;
     json_dumps := sample_dumps |}.

(** A model that asks for the tool with arguments that are not JSON. *)
Definition garbled : env :=
  {| requests_get := sample_get;
     chat_create := fun _ _ _ =>
       Ok {| usage := sample_usage 50 12 0;
             choices := [{| msg_content := None;
                            msg_tool_calls :=
                              [{| tc_id := "call_1";
                                  fn_name := "get_weather_by_city";
                                  fn_arguments := "{city" |}] |}] |};
     json_loads := sample_loads;
     json_dumps := sample_dumps |}.

(** A response whose usage block leaves the reasoning count out: the
    client library binds the attribute to [None]. *)
Definition silent : completion :=
  {| usage :=
       Some {| attr_prompt_tokens := Some 50;
               attr_completion_tokens := Some 12;
               attr_total_tokens := Some 62;
               attr_completion_tokens_details :=
                 Some {| attr_reasoning_tokens := Some None |} |};
     choices := [{| msg_content := Some "Which city?";
                    msg_tool_calls := [] |}] |}.

(** A model that always answers with it. *)
Definition uncounted : env :=
  {| requests_get := sample_get;
     chat_create := fun _ _ _ => Ok silent;
     json_loads := sample_loads;
     json_dumps := sample_dumps |}.

(** A geocoder that answers with status 304 and a body naming Tokyo. *)
Definition not_modified : env :=
  {| requests_get := fun _ _ _ =>
       HttpReturns {| status_code := 304; status_text := "304 Not Modified";
                      json_body := Ok (PDict [("results", PList [tokyo])]) |};
     chat_create := sample_create;
     json_loads := sample_loads;
     json_dumps := sample_dumps |}.

End Sample.

(* ====================================================================== *)
(** ** Properties of the conversation loop *)
(* ====================================================================== *)

Import Py Agent.
Local Open Scope string_scope.
Local Open Scope list_scope.

Section Console.

Variable E : env.

Lemma lower_nonempty (q : string) :
  lower q <> EmptyString -> String.eqb q EmptyString = false.
Proof.
  destruct q as [|c q']; simpl; intro H.
  - contradiction H; reflexivity.
  - reflexivity.
Qed.

Lemma mem_string_In (s : string) (l : list string) :
  mem_string s l = true <-> In s l.
Proof.
  unfold mem_string. rewrite existsb_exists. split.
  - intros [x [Hin Heq]]. apply String.eqb_eq in Heq. now subst.
  - intro Hin. exists s. split; [assumption | apply String.eqb_refl].
Qed.

Lemma lstrip_all_space (s : string) :
  all_space s = true -> lstrip s = EmptyString.
Proof.
  unfold all_space. induction s as [|c s IH]; simpl; intro H.
  - reflexivity.
  - apply andb_true_iff in H. destruct H as [Hc Hs].
    rewrite Hc. now apply IH.
Qed.

Lemma strip_all_space (s : string) :
  all_space s = true -> strip s = EmptyString.
Proof.
  intro H. unfold strip. now rewrite (lstrip_all_space s H).
Qed.

Lemma exit_closes (raw : string) (st : state) (t : trace) :
  strip raw = EmptyString \/ In (lower (strip raw)) exit_commands ->
  loop_body E (Some raw) st t = (Ok Break, st, t ++ [EvInput (Some raw)]).
Proof.
  intros H. cbv beta iota zeta delta [loop_body lbind run emit lret].
  destruct (String.eqb (strip raw) EmptyString) eqn:Hempty; [reflexivity|].
  destruct H as [H | H].
  - rewrite H in Hempty. discriminate.
  - apply mem_string_In in H. now rewrite H.
Qed.

Lemma help_stays (raw : string) (st : state) (t : trace) :
  In (lower (strip raw)) help_commands ->
  loop_body E (Some raw) st t
  = (Ok Continue, st, t ++ [EvInput (Some raw)] ++ [EvPrint OutHelp]).
Proof.
  intros H. cbv beta iota zeta delta [loop_body lbind run emit lret print].
  assert (Hne : lower (strip raw) <> EmptyString).
  { intro Heq. rewrite Heq in H. simpl in H. intuition discriminate. }
  rewrite (lower_nonempty _ Hne).
  assert (Hex : mem_string (lower (strip raw)) exit_commands = false).
  { simpl in H. destruct H as [H | [H | [H | []]]]; rewrite <- H; reflexivity. }
  rewrite Hex. apply mem_string_In in H. rewrite H.
  now rewrite <- app_assoc.
Qed.

End Console.

(** C10. The console line is stripped and lowercased before it is matched:
    a line that is blank after stripping (whitespace-only lines included) or
    that lowercases to one of /exit, exit, quit, :q ends the loop with the
    transcript and the totals untouched and nothing but the read recorded,
    whatever lines follow it; a line that lowercases to /help, help or ?
    prints the help text and the loop carries on with the same transcript.
    "EXIT" and "  Quit " are exit commands. *)
Theorem console_commands (E : env) (raw : string) (rest : list string)
    (st : state) (t : trace) :
  (strip raw = EmptyString \/ In (lower (strip raw)) exit_commands ->
   loop_body E (Some raw) st t = (Ok Break, st, t ++ [EvInput (Some raw)])
   /\ while_true E (raw :: rest) st t
      = (Ok tt, st, t ++ [EvInput (Some raw)]))
  /\ (all_space raw = true -> strip raw = EmptyString)
  /\ (In (lower (strip raw)) help_commands ->
      loop_body E (Some raw) st t
      = (Ok Continue, st, t ++ [EvInput (Some raw)] ++ [EvPrint OutHelp])
      /\ while_true E (raw :: rest) st t
         = while_true E rest st
             (t ++ [EvInput (Some raw)] ++ [EvPrint OutHelp]))
  /\ In (lower (strip "EXIT")) exit_commands
  /\ In (lower (strip "  Quit ")) exit_commands.
Proof.
  split; [|split; [|split; [|split]]].
  - intro H. pose proof (exit_closes E raw st t H) as Hb.
    split; [exact Hb|].
    simpl. unfold lbind at 1. now rewrite Hb.
  - apply strip_all_space.
  - intro H. pose proof (help_stays E raw st t H) as Hb.
    split; [exact Hb|].
    simpl. unfold lbind at 1. now rewrite Hb.
  - simpl. auto.
  - simpl. auto.
Qed.

Lemma console_commands_witness :
  loop_body Sample.world (Some "  Quit ") initial_state []
  = (Ok Break, initial_state, [EvInput (Some "  Quit ")])
  /\ strip "   " = EmptyString
  /\ while_true Sample.world [" HELP"; "Tokyo"] initial_state []
     = while_true Sample.world ["Tokyo"] initial_state
         [EvInput (Some " HELP"); EvPrint OutHelp].
Proof.
  pose proof (console_commands Sample.world "  Quit " [] initial_state [])
    as [Hexit _].
  pose proof (console_commands Sample.world "   " [] initial_state [])
    as [_ [Hblank _]].
  pose proof (console_commands Sample.world " HELP" ["Tokyo"] initial_state [])
    as [_ [_ [Hhelp _]]].
  split; [|split].
  - apply Hexit. right. simpl. auto.
  - apply Hblank. reflexivity.
  - apply Hhelp. simpl. auto.
Defined.

(* ====================================================================== *)
(** ** Properties of the tools *)
(* ====================================================================== *)

(** Unfolds the effect combinators down to matches on results. *)
Ltac step_m :=
  cbv beta iota zeta delta
    [bind lift ret raise try_except http_get emit print create fst snd].

(** Splits on whatever the next step of the code inspects. *)
Ltac split_matches :=
  repeat match goal with
         | |- context [match ?x with _ => _ end] =>
             lazymatch x with
             | context [match _ with _ => _ end] => fail
             | _ => destruct x eqn:?; cbv beta iota zeta delta [fst snd]
             end
         end.

Section ToolTraces.

Variable E : env.

(** [geocode_city] always returns, after exactly one HTTP request. *)
Lemma geocode_city_returns (city : pyval) (t : trace) :
  exists geo,
    geocode_city E city t
    = (Ok geo,
       t ++ [EvHttp geocoding_url (geocoding_params city) 8
               (requests_get E t geocoding_url (geocoding_params city))]).
Proof.
  unfold geocode_city. fold (geocoding_params city). step_m.
  destruct (requests_get E t geocoding_url (geocoding_params city));
    [eexists; reflexivity|].
  split_matches; eexists; reflexivity.
Qed.

(** [fetch_weather] always returns, after exactly one HTTP request. *)
Lemma fetch_weather_returns (latitude longitude : pyval) (t : trace) :
  exists weather,
    fetch_weather E latitude longitude t
    = (Ok weather,
       t ++ [EvHttp forecast_url (forecast_params latitude longitude) 8
               (requests_get E t forecast_url
                  (forecast_params latitude longitude))]).
Proof.
  unfold fetch_weather. fold (forecast_params latitude longitude). step_m.
  destruct (requests_get E t forecast_url
              (forecast_params latitude longitude));
    [eexists; reflexivity|].
  split_matches; eexists; reflexivity.
Qed.

(** What [geocode_city] returns is a failure of two entries or a match of
    five, and only the failure has an ["error"]. *)
Lemma geocode_city_shape (city : pyval) (t : trace) (geo : dict) (t' : trace) :
  geocode_city E city t = (Ok geo, t') ->
  (exists err, geo = [("error", PStr err); ("city", city)])
  \/ (exists n c la lo,
        geo = [("city", city); ("resolved_name", n); ("country", c);
               ("latitude", la); ("longitude", lo)]).
Proof.
  unfold geocode_city. step_m.
  destruct (requests_get E t geocoding_url _).
  - intro H. injection H as <- _. left. eexists. reflexivity.
  - split_matches; intro H; injection H as <- _;
      solve [left; eexists; reflexivity
            | right; do 4 eexists; reflexivity].
Qed.

(** When the exchange itself fails, the failure carries the exception text
    under ["error"]. *)
Lemma geocode_city_raises (city : pyval) (t : trace) (e : pyexn) :
  requests_get E t geocoding_url (geocoding_params city) = HttpRaises e ->
  fst (geocode_city E city t)
  = Ok [("error", PStr (str_exn e)); ("city", city)].
Proof.
  intro H. unfold geocode_city. fold (geocoding_params city). step_m.
  rewrite H. reflexivity.
Qed.

Lemma geocode_city_status (city : pyval) (t : trace) (r : response) :
  requests_get E t geocoding_url (geocoding_params city) = HttpReturns r ->
  (400 <= status_code r < 600)%Z ->
  fst (geocode_city E city t)
  = Ok [("error", PStr (status_text r)); ("city", city)].
Proof.
  intros H Hs. unfold geocode_city. fold (geocoding_params city). step_m.
  rewrite H. unfold raise_for_status.
  replace ((400 <=? status_code r)%Z && (status_code r <? 600)%Z) with true
    by (symmetry; apply andb_true_iff; split;
        [apply Z.leb_le | apply Z.ltb_lt]; lia).
  reflexivity.
Qed.

Lemma fetch_weather_raises (la lo : pyval) (t : trace) (e : pyexn) :
  requests_get E t forecast_url (forecast_params la lo) = HttpRaises e ->
  fst (fetch_weather E la lo t)
  = Ok [("error", PStr (str_exn e)); ("latitude", la); ("longitude", lo)].
Proof.
  intro H. unfold fetch_weather. fold (forecast_params la lo). step_m.
  rewrite H. reflexivity.
Qed.

Lemma fetch_weather_status (la lo : pyval) (t : trace) (r : response) :
  requests_get E t forecast_url (forecast_params la lo) = HttpReturns r ->
  (400 <= status_code r < 600)%Z ->
  fst (fetch_weather E la lo t)
  = Ok [("error", PStr (status_text r)); ("latitude", la);
        ("longitude", lo)].
Proof.
  intros H Hs. unfold fetch_weather. fold (forecast_params la lo). step_m.
  rewrite H. unfold raise_for_status.
  replace ((400 <=? status_code r)%Z && (status_code r <? 600)%Z) with true
    by (symmetry; apply andb_true_iff; split;
        [apply Z.leb_le | apply Z.ltb_lt]; lia).
  reflexivity.
Qed.

End ToolTraces.

(** C4, as the code has it.  When the geocoding or forecast request raises
    (connection error, timeout) or is answered with a 4xx or 5xx status,
    [geocode_city] and [fetch_weather] return a failure whose ["error"]
    entry is the text of the exception itself, next to the city (or the
    coordinates); the failure has no stage entry. *)
Theorem transport_failure_carries_text (E : env) (city la lo : pyval)
    (t : trace) :
  (forall e,
     requests_get E t geocoding_url (geocoding_params city) = HttpRaises e ->
     fst (geocode_city E city t)
     = Ok [("error", PStr (str_exn e)); ("city", city)])
  /\ (forall r,
       requests_get E t geocoding_url (geocoding_params city)
       = HttpReturns r ->
       (400 <= status_code r < 600)%Z ->
       fst (geocode_city E city t)
       = Ok [("error", PStr (status_text r)); ("city", city)])
  /\ (forall e,
       requests_get E t forecast_url (forecast_params la lo) = HttpRaises e ->
       fst (fetch_weather E la lo t)
       = Ok [("error", PStr (str_exn e)); ("latitude", la);
             ("longitude", lo)])
  /\ (forall r,
       requests_get E t forecast_url (forecast_params la lo)
       = HttpReturns r ->
       (400 <= status_code r < 600)%Z ->
       fst (fetch_weather E la lo t)
       = Ok [("error", PStr (status_text r)); ("latitude", la);
             ("longitude", lo)]).
Proof.
  repeat split; intros.
  - now apply geocode_city_raises.
  - now apply geocode_city_status.
  - now apply fetch_weather_raises.
  - now apply fetch_weather_status.
Qed.

Lemma transport_failure_carries_text_witness :
  fst (geocode_city Sample.world (PStr "Atlantis") [])
  = Ok [("error", PStr "Read timed out. (read timeout=8)");
        ("city", PStr "Atlantis")].
Proof.
  apply (proj1 (transport_failure_carries_text Sample.world
                  (PStr "Atlantis") PNone PNone [])
           (Exn "ReadTimeout" "Read timed out. (read timeout=8)")).
  reflexivity.
Defined.

(** C4 as stated fails: a geocoding request that times out yields a failure
    in which no entry holds the tag "transport", and a response with a
    status outside 2xx that is not 4xx or 5xx is read like a success. *)
Lemma transport_tag_counterexample :
  (exists d t',
     geocode_city Sample.world (PStr "Atlantis") [] = (Ok d, t')
     /\ dict_get d "error" = Some (PStr "Read timed out. (read timeout=8)")
     /\ dict_get d "stage" = None
     /\ ~ has_tag d "transport")
  /\ (exists d t',
        geocode_city Sample.not_modified (PStr "Tokyo") [] = (Ok d, t')
        /\ dict_get d "error" = None
        /\ dict_get d "resolved_name" = Some (PStr "Tokyo")).
Proof.
  split.
  - eexists. eexists. split; [vm_compute; reflexivity|].
    split; [reflexivity|]. split; [reflexivity|].
    unfold has_tag. simpl. intros [H | [H | []]]; discriminate.
  - eexists. eexists. split; [vm_compute; reflexivity|].
    split; reflexivity.
Qed.

(** C5, as the code has it.  [execute_tool] returns a dictionary, and
    raises nothing, for every tool name other than get_weather_by_city
    whatever the arguments, and for get_weather_by_city when the argument
    mapping has the single key "city". *)
Theorem execute_tool_returns (E : env) (name : string) (args : dict)
    (t : trace) :
  name <> "get_weather_by_city" \/ (exists v, args = [("city", v)]) ->
  exists d t', execute_tool E name args t = (Ok d, t').
Proof.
  intros H. unfold execute_tool.
  destruct (String.eqb name "get_weather_by_city") eqn:Hn.
  - apply String.eqb_eq in Hn.
    destruct H as [H | [v ->]]; [contradiction|].
    unfold bind_city. simpl. step_m.
    unfold get_weather_by_city. step_m.
    destruct (geocode_city_returns E v t) as [geo Hgeo]. rewrite Hgeo.
    destruct (truthy (get geo "error")); [eexists; eexists; reflexivity|].
    destruct (is_none (get geo "latitude") || is_none (get geo "longitude"));
      [eexists; eexists; reflexivity|].
    match goal with
    | |- context [fetch_weather E ?a ?b ?u] =>
        destruct (fetch_weather_returns E a b u) as [w Hw]; rewrite Hw
    end.
    eexists; eexists; reflexivity.
  - eexists; eexists; reflexivity.
Qed.

Lemma execute_tool_returns_witness :
  exists d t',
    execute_tool Sample.world "get_weather_by_city" [("city", PStr "Tokyo")] []
    = (Ok d, t').
Proof.
  apply (execute_tool_returns Sample.world "get_weather_by_city"
           [("city", PStr "Tokyo")] []).
  right. exists (PStr "Tokyo"). reflexivity.
Defined.

(** C5 as stated fails: with no "city" among the arguments, or with a
    second keyword next to it, the call of get_weather_by_city raises
    [TypeError] out of [execute_tool]. *)
Lemma execute_tool_counterexample :
  (exists e, execute_tool Sample.world "get_weather_by_city" [] []
             = (Raise e, []))
  /\ (exists e,
        execute_tool Sample.world "get_weather_by_city"
          [("city", PStr "Tokyo"); ("units", PStr "metric")] []
        = (Raise e, [])).
Proof.
  split; eexists; vm_compute; reflexivity.
Qed.

(** C6, as the code has it.  When the geocoding stage returns a failure (a
    dictionary with an ["error"] entry), [get_weather_by_city] returns
    without calling [fetch_weather]: the geocoding request is the only event
    of the call, and the result is the geocoder's failure itself, the city
    and the geocoder's ["error"] value, with no stage entry. *)
Theorem geocode_failure_short_circuits (E : env) (city : pyval) (t : trace)
    (geo : dict) (t1 : trace) (err : pyval) :
  geocode_city E city t = (Ok geo, t1) ->
  dict_get geo "error" = Some err ->
  get_weather_by_city E city t = (Ok [("city", city); ("error", err)], t1)
  /\ t1 = t ++ [EvHttp geocoding_url (geocoding_params city) 8
                 (requests_get E t geocoding_url (geocoding_params city))]
  /\ (forall d, t1 = t ++ d -> http_urls d = [geocoding_url]).
Proof.
  intros Hgeo Herr.
  destruct (geocode_city_returns E city t) as [geo' Hret].
  rewrite Hgeo in Hret. injection Hret as <- ->.
  split; [|split; [reflexivity|]].
  2:{ intros d Hd. apply app_inv_head in Hd. now subst d. }
  unfold get_weather_by_city. step_m. rewrite Hgeo.
  destruct (geocode_city_shape E city t geo _ Hgeo)
    as [[e ->] | [n [c [la [lo ->]]]]].
  - injection Herr as <-.
    destruct (truthy (get [("error", PStr e); ("city", city)] "error"));
      reflexivity.
  - discriminate Herr.
Qed.

Lemma geocode_failure_short_circuits_witness :
  get_weather_by_city Sample.world (PStr "Utopia") []
  = (Ok [("city", PStr "Utopia"); ("error", PStr "city_not_found")],
     [EvHttp geocoding_url (geocoding_params (PStr "Utopia")) 8
        (Sample.ok_response (PDict []))]).
Proof.
  refine (proj1 (geocode_failure_short_circuits Sample.world (PStr "Utopia")
                   [] [("error", PStr "city_not_found");
                       ("city", PStr "Utopia")]
                   _ (PStr "city_not_found") _ _)).
  - vm_compute. reflexivity.
  - reflexivity.
Defined.

(** C6 as stated fails: when the geocoder finds no match, nothing in the
    returned failure holds the stage "geocode"; its ["error"] is
    "city_not_found". *)
Lemma geocode_stage_counterexample :
  exists d t',
    get_weather_by_city Sample.world (PStr "Utopia") [] = (Ok d, t')
    /\ dict_get d "error" = Some (PStr "city_not_found")
    /\ dict_get d "stage" = None
    /\ ~ has_tag d "geocode".
Proof.
  eexists. eexists. split; [vm_compute; reflexivity|].
  split; [reflexivity|]. split; [reflexivity|].
  unfold has_tag. simpl. intros [H | [H | []]]; discriminate.
Qed.

(* ====================================================================== *)
(** ** What the tool round does to the trace and to the transcript *)
(* ====================================================================== *)

Section ToolRound.

Variable E : env.

Lemma usage_log_app (a b : trace) :
  usage_log (a ++ b) = usage_log a ++ usage_log b.
Proof.
  induction a as [|ev a IH]; simpl; [reflexivity|].
  destruct ev as [| ? ? [c|e] | |]; simpl; now rewrite IH.
Qed.

Lemma model_calls_app (a b : trace) :
  model_calls (a ++ b) = (model_calls a + model_calls b)%nat.
Proof.
  induction a as [|ev a IH]; simpl; [reflexivity|].
  destruct ev; simpl; now rewrite IH.
Qed.

Lemma http_only_quiet (d : trace) :
  forallb is_http d = true -> usage_log d = [] /\ model_calls d = O.
Proof.
  induction d as [|ev d IH]; simpl; [auto|].
  destruct ev; simpl; try discriminate. exact IH.
Qed.

Lemma sum_by_app (f : usage_record -> Z) (a b : list usage_record) :
  sum_by f (a ++ b) = (sum_by f a + sum_by f b)%Z.
Proof.
  unfold sum_by. induction a as [|u a IH]; simpl; [reflexivity|].
  rewrite IH. lia.
Qed.

(** A tool call touches the outside through HTTP requests only. *)
Lemma execute_tool_http (name : string) (args : dict) (t : trace)
    (r : result dict) (t' : trace) :
  execute_tool E name args t = (r, t') ->
  exists d, t' = t ++ d /\ forallb is_http d = true.
Proof.
  unfold execute_tool.
  destruct (String.eqb name "get_weather_by_city").
  - step_m. destruct (bind_city args) as [city|e].
    + unfold get_weather_by_city. step_m.
      destruct (geocode_city_returns E city t) as [geo ->].
      destruct (truthy (get geo "error")).
      { intro H. injection H as _ <-. eexists. split; reflexivity. }
      destruct (is_none (get geo "latitude")
                || is_none (get geo "longitude")).
      { intro H. injection H as _ <-. eexists. split; reflexivity. }
      match goal with
      | |- context [fetch_weather E ?a ?b ?u] =>
          destruct (fetch_weather_returns E a b u) as [w ->]
      end.
      intro H. injection H as _ <-. rewrite <- app_assoc.
      eexists. split; reflexivity.
    + intro H. injection H as _ <-. exists []. now rewrite app_nil_r.
  - step_m. intro H. injection H as _ <-. exists []. now rewrite app_nil_r.
Qed.

Lemma dispatch_http (q : string) (tc : tool_call) (t : trace)
    (r : result (call_entry * message)) (t' : trace) :
  dispatch E q tc t = (r, t') ->
  exists d, t' = t ++ d /\ forallb is_http d = true.
Proof.
  unfold dispatch. step_m.
  destruct (parse_arguments E tc) as [parsed|e].
  2:{ intro H. injection H as _ <-. exists []. now rewrite app_nil_r. }
  destruct (backfill parsed q) as [args|e].
  2:{ intro H. injection H as _ <-. exists []. now rewrite app_nil_r. }
  destruct (execute_tool E (fn_name tc) args t) as [res t1] eqn:Hex.
  apply execute_tool_http in Hex.
  destruct res; intro H; injection H as _ <-; exact Hex.
Qed.

Lemma tool_round_http (q : string) (tcs : list tool_call) :
  forall (t : trace) (r : result (list call_entry * list message))
         (t' : trace),
    tool_round E q tcs t = (r, t') ->
    exists d, t' = t ++ d /\ forallb is_http d = true.
Proof.
  induction tcs as [|tc tcs IH]; intros t r t'; simpl.
  - step_m. intro H. injection H as _ <-. exists []. now rewrite app_nil_r.
  - unfold bind at 1.
    destruct (dispatch E q tc t) as [p t1] eqn:Hd.
    apply dispatch_http in Hd. destruct Hd as [d1 [-> Hd1]].
    destruct p as [p|e].
    + unfold bind at 1.
      destruct (tool_round E q tcs (t ++ d1)) as [r2 t2] eqn:Hr.
      apply IH in Hr. destruct Hr as [d2 [-> Hd2]].
      destruct r2; step_m; intro H; injection H as _ <-;
        exists (d1 ++ d2); rewrite app_assoc, forallb_app, Hd1, Hd2; auto.
    + intro H. injection H as _ <-. exists d1. auto.
Qed.

(** The entries and the tool turns come out one per invocation, in the
    order of the invocations, each under the invocation's id. *)
Lemma tool_round_ids (q : string) (tcs : list tool_call) :
  forall (t : trace) (calls : list call_entry) (tools : list message)
         (t' : trace),
    tool_round E q tcs t = (Ok (calls, tools), t') ->
    map ce_id calls = map tc_id tcs
    /\ map ce_name calls = map fn_name tcs
    /\ map tool_call_id_of tools = map (fun c => Some (ce_id c)) calls.
Proof.
  induction tcs as [|tc tcs IH]; intros t calls tools t'; simpl.
  - step_m. intro H. injection H as <- <- _. auto.
  - unfold bind at 1.
    destruct (dispatch E q tc t) as [[p|e] t1] eqn:Hd; [|discriminate].
    unfold bind at 1.
    destruct (tool_round E q tcs t1) as [[[cs ts]|e] t2] eqn:Hr;
      [|discriminate].
    step_m. intro H. injection H as <- <- _.
    destruct (IH _ _ _ _ Hr) as [H1 [H2 H3]].
    unfold dispatch in Hd. revert Hd. step_m.
    destruct (parse_arguments E tc); [|discriminate].
    destruct (backfill a q); [|discriminate].
    destruct (execute_tool E (fn_name tc) a0 t) as [[res|e] t3];
      [|discriminate].
    intro H. injection H as <- _. simpl.
    now rewrite H1, H2, H3.
Qed.

End ToolRound.

(* ====================================================================== *)
(** ** One user turn, case by case *)
(* ====================================================================== *)

Section Turn.

Variable E : env.

(** Unfolds the loop's combinators down to matches on results. *)
Ltac step_l :=
  cbv beta iota zeta delta
    [turn call_model lbind lret run read append extend add_usage
     bind lift ret raise emit print create fst snd].

(** The turn, written out: where each failure leaves the variables and the
    trace, and what each of the two paths appends. *)
Lemma turn_unfold (q : string) (st : state) (t : trace) :
  turn E q st t
  = let st1 := push st [User q] in
    let out1 := chat_create E t (messages st1) true in
    let t1 := t ++ [EvModel (messages st1) true out1] in
    match out1 with
    | Raise e => (Raise e, st1, t1)
    | Ok first =>
        let u1 := extract_usage first in
        let st2 := credit st1 u1 in
        match u_reasoning u1 with
        | None => (Raise none_operand, st2, t1)
        | Some _ =>
            let t2 := t1 ++ [EvPrint (OutUsageFirst u1)] in
            match first_choice first with
            | Raise e => (Raise e, st2, t2)
            | Ok msg =>
                match msg_tool_calls msg with
                | [] =>
                    let st3 := push st2 [Assistant (msg_content msg)] in
                    (Ok tt, st3,
                     (t2 ++ [EvPrint (OutContent (msg_content msg))])
                     ++ [EvPrint (OutUsageSingle (total_tokens st3))])
                | _ :: _ =>
                    match tool_round E q (msg_tool_calls msg) t2 with
                    | (Raise e, t3) => (Raise e, st2, t3)
                    | (Ok r, t3) =>
                        let st3 := push (push st2 [AssistantCalls (fst r)])
                                     (snd r) in
                        let out2 := chat_create E t3 (messages st3) false in
                        let t4 := t3 ++ [EvModel (messages st3) false out2] in
                        match out2 with
                        | Raise e => (Raise e, st3, t4)
                        | Ok second =>
                            let u2 := extract_usage second in
                            let st4 := credit st3 u2 in
                            match u_reasoning u2 with
                            | None => (Raise none_operand, st4, t4)
                            | Some _ =>
                                match first_choice second with
                                | Raise e => (Raise e, st4, t4)
                                | Ok final_msg =>
                                    let st5 :=
                                      push st4
                                        [Assistant (msg_content final_msg)] in
                                    (Ok tt, st5,
                                     (t4 ++ [EvPrint
                                               (OutContent
                                                  (msg_content final_msg))])
                                     ++ [EvPrint
                                           (OutUsageSecond u2
                                              (total_tokens st5))])
                                end
                            end
                        end
                    end
                end
            end
        end
    end.
Proof.
  step_l.
  destruct (chat_create E t (messages (push st [User q])) true)
    as [first|e]; [|reflexivity].
  destruct (u_reasoning (extract_usage first)); [|reflexivity].
  destruct (first_choice first) as [msg|e]; [|reflexivity].
  destruct (msg_tool_calls msg) as [|tc tcs] eqn:Htcs; [reflexivity|].
  destruct (tool_round E q (tc :: tcs) _) as [[r|e] t3]; [|reflexivity].
  destruct (chat_create E t3 _ false) as [second|e]; [|reflexivity].
  destruct (u_reasoning (extract_usage second)); [|reflexivity].
  destruct (first_choice second) as [final_msg|e]; reflexivity.
Qed.

End Turn.

(* ====================================================================== *)
(** ** The transcript of a tool round *)
(* ====================================================================== *)

(** C1. A turn that takes the two-call path appends to the transcript
    exactly: the user turn, one assistant turn carrying the tool calls, one
    tool turn per invocation (in the order of the invocations, each under
    the id of its invocation in the assistant turn before it), and one
    assistant text turn; nothing else. *)
Theorem two_call_turn_slice (E : env) (q : string) (st st' : state)
    (t t' : trace) (first : completion) (msg : chat_message) :
  chat_create E t (messages st ++ [User q]) true = Ok first ->
  first_choice first = Ok msg ->
  msg_tool_calls msg <> [] ->
  turn E q st t = (Ok tt, st', t') ->
  exists calls tools content,
    messages st'
    = messages st
      ++ [User q] ++ [AssistantCalls calls] ++ tools ++ [Assistant content]
    /\ map ce_id calls = map tc_id (msg_tool_calls msg)
    /\ map ce_name calls = map fn_name (msg_tool_calls msg)
    /\ map tool_call_id_of tools = map (fun c => Some (ce_id c)) calls
    /\ List.length tools = List.length (msg_tool_calls msg).
Proof.
  intros Hfirst Hmsg Hcalls. rewrite turn_unfold.
  cbv zeta. simpl messages at 1. rewrite Hfirst.
  destruct (u_reasoning (extract_usage first)); [|discriminate].
  rewrite Hmsg.
  destruct (msg_tool_calls msg) as [|tc tcs] eqn:Htcs; [contradiction|].
  destruct (tool_round E q (tc :: tcs) _) as [[[calls tools]|e] t3] eqn:Hround;
    [|discriminate].
  destruct (chat_create E t3 _ false) as [second|e]; [|discriminate].
  destruct (u_reasoning (extract_usage second)); [|discriminate].
  destruct (first_choice second) as [final_msg|e]; [|discriminate].
  intro H. injection H as <- _.
  destruct (tool_round_ids E q _ _ _ _ _ Hround) as [Hid [Hname Htool]].
  exists calls, tools, (msg_content final_msg).
  split; [|split; [|split; [|split]]]; try assumption.
  - simpl. now rewrite <- !app_assoc.
  - rewrite <- (length_map tool_call_id_of), Htool, length_map.
    rewrite <- (length_map ce_id), Hid, length_map. reflexivity.
Qed.

Lemma two_call_turn_slice_witness :
  exists calls tools content,
    messages (snd (fst (turn Sample.world "Tokyo" initial_state [])))
    = messages initial_state
      ++ [User "Tokyo"] ++ [AssistantCalls calls] ++ tools
      ++ [Assistant content]
    /\ map ce_id calls = ["call_1"]
    /\ map tool_call_id_of tools = [Some "call_1"].
Proof.
  destruct (turn Sample.world "Tokyo" initial_state []) as [[r st'] t']
    eqn:Hturn.
  assert (Hr : r = Ok tt).
  { apply (f_equal (fun x => fst (fst x))) in Hturn.
    vm_compute in Hturn. now symmetry. }
  subst r.
  destruct (two_call_turn_slice Sample.world "Tokyo" initial_state st' [] t'
              _ _ eq_refl eq_refl ltac:(discriminate) Hturn)
    as [calls [tools [content [H1 [H2 [_ [H3 _]]]]]]].
  exists calls, tools, content. simpl.
  split; [exact H1|]. split; [exact H2|].
  rewrite H3. rewrite <- (map_map ce_id Some), H2. reflexivity.
Defined.

(** C7. When the second model call of a tool round answers with tool
    invocations of its own, they are not looked at: once the usage line has
    folded the response's counts (its reasoning entry is a number, as the
    first response's was), the turn ends with the second response's content
    appended as the assistant turn and printed as the answer, and after the
    second model call the turn does nothing to the outside but print (no
    tool is dispatched, no third call is made). *)
Theorem second_call_tool_requests_ignored (E : env) (q : string)
    (st : state) (t t3 : trace) (first second : completion)
    (msg final_msg : chat_message)
    (calls : list call_entry) (tools : list message) (n1 n2 : Z) :
  let st1 := push st [User q] in
  let t2 := (t ++ [EvModel (messages st1) true (Ok first)])
            ++ [EvPrint (OutUsageFirst (extract_usage first))] in
  let st3 := push (push (credit st1 (extract_usage first))
                     [AssistantCalls calls]) tools in
  let st5 := push (credit st3 (extract_usage second))
               [Assistant (msg_content final_msg)] in
  chat_create E t (messages st1) true = Ok first ->
  u_reasoning (extract_usage first) = Some n1 ->
  first_choice first = Ok msg ->
  msg_tool_calls msg <> [] ->
  tool_round E q (msg_tool_calls msg) t2 = (Ok (calls, tools), t3) ->
  chat_create E t3 (messages st3) false = Ok second ->
  u_reasoning (extract_usage second) = Some n2 ->
  first_choice second = Ok final_msg ->
  turn E q st t
  = (Ok tt, st5,
     t3 ++ [EvModel (messages st3) false (Ok second);
            EvPrint (OutContent (msg_content final_msg));
            EvPrint (OutUsageSecond (extract_usage second)
                       (total_tokens st5))])
  /\ messages st5 = messages st3 ++ [Assistant (msg_content final_msg)]
  /\ model_calls
       (skipn (List.length t)
          (t3 ++ [EvModel (messages st3) false (Ok second);
                  EvPrint (OutContent (msg_content final_msg));
                  EvPrint (OutUsageSecond (extract_usage second)
                             (total_tokens st5))]))
     = 2%nat.
Proof.
  intros st1 t2 st3 st5 Hfirst Hn1 Hmsg Hcalls Hround Hsecond Hn2 Hfinal.
  split; [|split].
  - rewrite turn_unfold. cbv zeta. fold st1. rewrite Hfirst, Hn1, Hmsg.
    destruct (msg_tool_calls msg) as [|tc tcs] eqn:Htcs; [contradiction|].
    fold t2. rewrite Hround. cbv beta iota delta [fst snd]. fold st3.
    rewrite Hsecond, Hn2, Hfinal. fold st5.
    now rewrite <- !app_assoc.
  - reflexivity.
  - destruct (tool_round_http E q _ _ _ _ Hround) as [d [-> Hd]].
    destruct (http_only_quiet d Hd) as [_ Hquiet].
    unfold t2. rewrite <- !app_assoc.
    rewrite skipn_app, skipn_all, Nat.sub_diag. simpl app at 1.
    cbn [skipn]. cbn [model_calls]. rewrite model_calls_app, Hquiet.
    reflexivity.
Qed.

Lemma second_call_tool_requests_ignored_witness :
  exists st' t',
    turn Sample.world "Tokyo" initial_state [] = (Ok tt, st', t')
    /\ last (messages st') (System EmptyString)
       = Assistant (Some "It is 68.0 F in Tokyo.")
    /\ model_calls t' = 2%nat.
Proof.
  pose (t2 := [EvModel (messages (push initial_state [User "Tokyo"])) true
                 (Ok Sample.tool_request);
               EvPrint (OutUsageFirst (extract_usage Sample.tool_request))]).
  pose (tcs := [{| tc_id := "call_1"; fn_name := "get_weather_by_city";
                   fn_arguments := "{}" |}]).
  let r := eval vm_compute in (tool_round Sample.world "Tokyo" tcs t2) in
  match r with
  | (Ok (?calls, ?tools), ?t3) =>
      pose proof (second_call_tool_requests_ignored Sample.world "Tokyo"
                    initial_state [] t3 Sample.tool_request Sample.answer
                    (hd {| msg_content := None; msg_tool_calls := [] |}
                        (choices Sample.tool_request))
                    (hd {| msg_content := None; msg_tool_calls := [] |}
                        (choices Sample.answer))
                    calls tools 0 0) as H
  end.
  cbv zeta in H.
  specialize (H ltac:(reflexivity) ltac:(reflexivity) ltac:(reflexivity)
                ltac:(discriminate) ltac:(vm_compute; reflexivity)
                ltac:(reflexivity) ltac:(reflexivity) ltac:(reflexivity)).
  destruct H as [Hturn [_ Hcalls]].
  eexists. eexists. split; [exact Hturn|]. split; [reflexivity|].
  exact Hcalls.
Defined.

(* ====================================================================== *)
(** ** The city backfill *)
(* ====================================================================== *)

Lemma dict_set_absent (d : dict) (k : string) (v : pyval) :
  dict_get d k = None -> dict_set d k v = d ++ [(k, v)].
Proof.
  induction d as [|[k' v'] d IH]; simpl; [reflexivity|].
  destruct (String.eqb k' k); [discriminate|].
  intro H. now rewrite IH.
Qed.

Lemma dict_get_last (d : dict) (k : string) (v : pyval) :
  dict_get d k = None -> dict_get (d ++ [(k, v)]) k = Some v.
Proof.
  induction d as [|[k' v'] d IH]; simpl.
  - now rewrite String.eqb_refl.
  - destruct (String.eqb k' k); [discriminate | exact IH].
Qed.

(** C9, what the code does.  In a turn whose first response asks for the
    tool, every invocation that is reached hands to [execute_tool] the
    decoded mapping with "city" defaulted to the turn's user text, and that
    text is the console line with the surrounding whitespace stripped: the
    one the turn's user message holds.  A mapping without "city" so gets
    "city" added, bound to that text; a mapping with "city" is handed over
    as it is.  When the round completes, the assistant turn that follows the
    user turn records the mappings handed over and the tool turns hold the
    results; when an invocation raises, the exception ends the iteration
    where the round stopped. *)
Theorem city_backfill (E : env) (raw : string) (st : state) (t : trace)
    (first : completion) (msg : chat_message) (n : Z) :
  let q := strip raw in
  let t2 := ((t ++ [EvInput (Some raw)])
             ++ [EvModel (messages st ++ [User q]) true (Ok first)])
            ++ [EvPrint (OutUsageFirst (extract_usage first))] in
  q <> EmptyString ->
  mem_string (lower q) exit_commands = false ->
  mem_string (lower q) help_commands = false ->
  chat_create E (t ++ [EvInput (Some raw)]) (messages st ++ [User q]) true
  = Ok first ->
  u_reasoning (extract_usage first) = Some n ->
  first_choice first = Ok msg ->
  msg_tool_calls msg <> [] ->
  (exists r t3,
     served E q (msg_tool_calls msg) t2 r t3
     /\ match r with
        | Ok (calls, tools) =>
            exists rest more,
              trace_of (loop_body E (Some raw) st t) = t3 ++ rest
              /\ messages (state_of (loop_body E (Some raw) st t))
                 = messages st
                   ++ [User q] ++ [AssistantCalls calls] ++ tools ++ more
        | Raise e =>
            loop_body E (Some raw) st t
            = (Raise e, credit (push st [User q]) (extract_usage first), t3)
        end)
  /\ (forall d,
        dict_get d "city" = None ->
        setdefault d "city" (PStr q) = d ++ [("city", PStr q)]
        /\ dict_get (setdefault d "city" (PStr q)) "city" = Some (PStr q))
  /\ (forall d v,
        dict_get d "city" = Some v -> setdefault d "city" (PStr q) = d).
Proof.
  intros q t2 Hne Hexit Hhelp Hfirst Hcount Hmsg Hcalls.
  assert (Hserved : forall tcs u,
             served E q tcs u (fst (tool_round E q tcs u))
               (snd (tool_round E q tcs u))).
  { induction tcs as [|tc tcs IH]; intro u.
    - cbn. constructor.
    - cbn [tool_round]. unfold dispatch. step_m.
      destruct (parse_arguments E tc) as [v|e] eqn:Hparse.
      2:{ cbn [fst snd]. now constructor. }
      destruct v as [| | | | | |d];
        try (cbn [backfill fst snd]; apply served_no_mapping;
             [exact Hparse | intros d; discriminate]).
      cbn [backfill].
      destruct (execute_tool E (fn_name tc) (setdefault d "city" (PStr q)) u)
        as [[result|e] u1] eqn:Hrun.
      2:{ cbn [fst snd]. now apply served_raised with (d := d). }
      specialize (IH u1).
      destruct (tool_round E q tcs u1) as [[[calls tools]|e] u2];
        cbn [fst snd] in IH |- *.
      + now apply served_next with (t1 := u1).
      + now apply served_cut with (t1 := u1) (d := d) (result := result). }
  split; [|split].
  - exists (fst (tool_round E q (msg_tool_calls msg) t2)),
           (snd (tool_round E q (msg_tool_calls msg) t2)).
    split; [apply Hserved|].
    unfold trace_of, state_of.
    cbv beta iota zeta delta [loop_body lbind run emit lret].
    fold q. rewrite Hexit, Hhelp.
    destruct (String.eqb q EmptyString) eqn:Hempty.
    { apply String.eqb_eq in Hempty. contradiction. }
    rewrite turn_unfold. cbv zeta. cbn [messages push].
    rewrite Hfirst, Hcount, Hmsg.
    destruct (msg_tool_calls msg) as [|tc tcs] eqn:Htcs; [contradiction|].
    fold t2.
    destruct (tool_round E q (tc :: tcs) t2) as [[[calls tools]|e] t3];
      cbn [fst snd]; [|reflexivity].
    destruct (chat_create E t3 _ false) as [second|e4].
    2:{ cbn [fst snd messages push credit].
        exists [EvModel
                  (((messages st ++ [User q]) ++ [AssistantCalls calls])
                   ++ tools) false (Raise e4)], [].
        split; [reflexivity|]. now rewrite app_nil_r, <- !app_assoc. }
    destruct (u_reasoning (extract_usage second)) as [n2|].
    2:{ cbn [fst snd messages push credit]. eexists. exists [].
        split; [reflexivity|]. now rewrite app_nil_r, <- !app_assoc. }
    destruct (first_choice second) as [final_msg|e5].
    + cbn [fst snd messages push credit]. eexists.
      exists [Assistant (msg_content final_msg)].
      split; [rewrite <- !app_assoc; reflexivity|].
      now rewrite <- !app_assoc.
    + cbn [fst snd messages push credit]. eexists. exists [].
      split; [reflexivity|]. now rewrite app_nil_r, <- !app_assoc.
  - intros d Hnone. unfold setdefault. rewrite Hnone.
    rewrite (dict_set_absent d "city" (PStr q) Hnone).
    split; [reflexivity | now apply dict_get_last].
  - intros d v Hsome. unfold setdefault. now rewrite Hsome.
Qed.

Lemma city_backfill_witness :
  let raw := "  Tokyo " in
  let call := {| tc_id := "call_1"; fn_name := "get_weather_by_city";
                 fn_arguments := "{}" |} in
  exists r t3,
    served Sample.world "Tokyo" [call]
      ((([] ++ [EvInput (Some raw)])
        ++ [EvModel (messages initial_state ++ [User "Tokyo"]) true
              (Ok Sample.tool_request)])
       ++ [EvPrint (OutUsageFirst (extract_usage Sample.tool_request))])
      r t3
    /\ match r with
       | Ok (calls, tools) =>
           exists rest more,
             trace_of (loop_body Sample.world (Some raw) initial_state [])
             = t3 ++ rest
             /\ messages
                  (state_of
                     (loop_body Sample.world (Some raw) initial_state []))
                = messages initial_state
                  ++ [User "Tokyo"] ++ [AssistantCalls calls] ++ tools
                  ++ more
       | Raise e =>
           loop_body Sample.world (Some raw) initial_state []
           = (Raise e,
              credit (push initial_state [User "Tokyo"])
                (extract_usage Sample.tool_request), t3)
       end.
Proof.
  exact (proj1 (city_backfill Sample.world "  Tokyo " initial_state []
                  Sample.tool_request
                  {| msg_content := None;
                     msg_tool_calls :=
                       [{| tc_id := "call_1";
                           fn_name := "get_weather_by_city";
                           fn_arguments := "{}" |}] |}
                  0 ltac:(vm_compute; discriminate) eq_refl eq_refl eq_refl
                  eq_refl eq_refl ltac:(discriminate))).
Defined.

(** C9 as stated fails: the text bound to "city" is not the line as the
    user typed it.  On the line "  Tokyo " the model's empty arguments are
    dispatched with "city" bound to "Tokyo", the name the geocoder is asked
    for; dispatching the line itself would have asked for "  Tokyo ". *)
Lemma city_backfill_counterexample :
  let raw := "  Tokyo " in
  geocoded (trace_of (loop_body Sample.world (Some raw) initial_state []))
  = [PStr "Tokyo"]
  /\ geocoded
       (snd (execute_tool Sample.world "get_weather_by_city"
               [("city", PStr raw)] []))
     = [PStr raw]
  /\ PStr "Tokyo" <> PStr raw.
Proof.
  cbv zeta. split; [vm_compute; reflexivity|].
  split; [vm_compute; reflexivity | discriminate].
Qed.

(* ====================================================================== *)
(** ** Usage accounting over a session *)
(* ====================================================================== *)

Section Accounting.

Variable E : env.

Lemma grown_by_refl (st : state) : grown_by st st [].
Proof. unfold grown_by. simpl. lia. Qed.

Lemma grown_by_trans (a b c : state) (us vs : list usage_record) :
  grown_by a b us -> grown_by b c vs -> grown_by a c (us ++ vs).
Proof.
  unfold grown_by. rewrite !sum_by_app. lia.
Qed.

(** Whatever path a turn takes and wherever it stops, the totals have grown
    by the records of the model calls that returned during it. *)
Lemma turn_accounts (q : string) (st : state) (t : trace) :
  exists d,
    trace_of (turn E q st t) = t ++ d
    /\ grown_by st (state_of (turn E q st t)) (usage_log d).
Proof.
  rewrite turn_unfold. cbv zeta. unfold trace_of, state_of.
  destruct (chat_create E t (messages (push st [User q])) true)
    as [first|e].
  2:{ eexists. split; [reflexivity|]. unfold grown_by. simpl. lia. }
  destruct (u_reasoning (extract_usage first)).
  2:{ eexists. split; [reflexivity|]. unfold grown_by. simpl. lia. }
  destruct (first_choice first) as [msg|e].
  2:{ eexists. split; [simpl; rewrite <- app_assoc; reflexivity|].
      unfold grown_by. simpl. lia. }
  destruct (msg_tool_calls msg) as [|tc tcs].
  { eexists. split; [simpl; rewrite <- !app_assoc; reflexivity|].
    unfold grown_by. simpl. lia. }
  destruct (tool_round E q (tc :: tcs) _) as [[r|e] t3] eqn:Hround;
    destruct (tool_round_http E q _ _ _ _ Hround) as [d [-> Hd]];
    destruct (http_only_quiet d Hd) as [Hlog _].
  2:{ eexists. split; [simpl; rewrite <- !app_assoc; reflexivity|].
      simpl. rewrite Hlog. unfold grown_by. simpl. lia. }
  destruct (chat_create E _ _ false) as [second|e].
  2:{ eexists. split; [simpl; rewrite <- !app_assoc; reflexivity|].
      simpl. rewrite usage_log_app, Hlog. unfold grown_by. simpl. lia. }
  destruct (u_reasoning (extract_usage second)).
  2:{ eexists. split; [simpl; rewrite <- !app_assoc; reflexivity|].
      simpl. rewrite usage_log_app, Hlog. unfold grown_by. simpl. lia. }
  destruct (first_choice second) as [final_msg|e];
    (eexists; split; [simpl; rewrite <- !app_assoc; reflexivity|];
     simpl; rewrite usage_log_app, Hlog; unfold grown_by; simpl; lia).
Qed.

Lemma loop_body_accounts (line : option string) (st : state) (t : trace) :
  exists d,
    trace_of (loop_body E line st t) = t ++ d
    /\ grown_by st (state_of (loop_body E line st t)) (usage_log d).
Proof.
  cbv beta iota zeta delta [loop_body lbind run emit lret print].
  destruct line as [raw|].
  2:{ eexists. split; [reflexivity | apply grown_by_refl]. }
  destruct (String.eqb (strip raw) EmptyString).
  { eexists. split; [reflexivity | apply grown_by_refl]. }
  destruct (mem_string (lower (strip raw)) exit_commands).
  { eexists. split; [reflexivity | apply grown_by_refl]. }
  destruct (mem_string (lower (strip raw)) help_commands).
  { eexists. split; [unfold trace_of; simpl; rewrite <- app_assoc;
                     reflexivity | apply grown_by_refl]. }
  destruct (turn_accounts (strip raw) st (t ++ [EvInput (Some raw)]))
    as [d [Ht Hg]].
  destruct (turn E (strip raw) st (t ++ [EvInput (Some raw)]))
    as [[r st'] t'].
  unfold trace_of, state_of in *. simpl in Ht, Hg. subst t'.
  exists (EvInput (Some raw) :: d).
  destruct r; (split; [simpl; rewrite <- app_assoc; reflexivity | exact Hg]).
Qed.

Lemma while_true_accounts (lines : list string) :
  forall (st : state) (t : trace),
  exists d,
    trace_of (while_true E lines st t) = t ++ d
    /\ grown_by st (state_of (while_true E lines st t)) (usage_log d).
Proof.
  induction lines as [|line rest IH]; intros st t.
  - cbn [while_true]. unfold lbind.
    destruct (loop_body_accounts None st t) as [d [Ht Hg]].
    destruct (loop_body E None st t) as [[r st'] t'].
    unfold trace_of, state_of in *. simpl in Ht, Hg.
    exists d. destruct r; (split; [exact Ht | exact Hg]).
  - cbn [while_true]. unfold lbind.
    destruct (loop_body_accounts (Some line) st t) as [d [Ht Hg]].
    destruct (loop_body E (Some line) st t) as [[r st'] t'].
    unfold trace_of, state_of in *. simpl in Ht, Hg. subst t'.
    destruct r as [[|]|e].
    + destruct (IH st' (t ++ d)) as [d' [Ht' Hg']].
      exists (d ++ d'). rewrite usage_log_app. split.
      * rewrite Ht'. now rewrite app_assoc.
      * exact (grown_by_trans _ _ _ _ _ Hg Hg').
    + exists d. split; [reflexivity | exact Hg].
    + exists d. split; [reflexivity | exact Hg].
Qed.

End Accounting.

(** X22. At the end of every session, however it ends (at a command, at the
    end of input or by an exception) and whatever path each turn took, the
    prompt, completion and total totals are the sums of those counts over
    the records [extract_usage] gave for the model calls that returned, and
    the reasoning total is the sum of the reasoning entries that are
    numbers: an entry that is [None] adds nothing. *)
Theorem session_totals_are_sums (E : env) (lines : list string) :
  let s := conversation_loop E lines [] in
  total_prompt (state_of s) = sum_by u_prompt (usage_log (trace_of s))
  /\ total_completion (state_of s)
     = sum_by u_completion (usage_log (trace_of s))
  /\ total_reasoning (state_of s)
     = sum_by reasoning_credit (usage_log (trace_of s))
  /\ total_tokens (state_of s) = sum_by u_total (usage_log (trace_of s)).
Proof.
  cbv zeta. unfold conversation_loop.
  cbv beta iota zeta delta [lbind run print emit read].
  destruct (while_true_accounts E lines initial_state
              ([] ++ [EvPrint OutBanner])) as [d [Ht Hg]].
  destruct (while_true E lines initial_state ([] ++ [EvPrint OutBanner]))
    as [[r st] t].
  unfold trace_of, state_of in *. simpl in Ht, Hg. subst t.
  unfold grown_by in Hg. simpl in Hg.
  destruct r; simpl; rewrite ?usage_log_app; simpl;
    rewrite ?app_nil_r; lia.
Qed.

(** C2, what the code does.  A usage block whose details block has
    [reasoning_tokens] bound to [None] gives a record whose reasoning entry
    is [None], not 0.  Folding the record of a turn's first response then
    raises [TypeError] at the fourth [+=], and the exception leaves
    [conversation_loop]: the session ends there with the other three totals
    already raised by the record's counts and the reasoning total as it
    was, the user turn unanswered, the lines still waiting never read and
    nothing printed after the call. *)
Theorem none_reasoning_count_ends_session (E : env) (raw : string)
    (rest : list string) (st : state) (t : trace) (first : completion)
    (o : usage_obj) :
  strip raw <> EmptyString ->
  mem_string (lower (strip raw)) exit_commands = false ->
  mem_string (lower (strip raw)) help_commands = false ->
  chat_create E (t ++ [EvInput (Some raw)])
    (messages st ++ [User (strip raw)]) true = Ok first ->
  usage first = Some o ->
  attr_completion_tokens_details o
  = Some {| attr_reasoning_tokens := Some None |} ->
  u_reasoning (extract_usage first) = None
  /\ while_true E (raw :: rest) st t
     = (Raise none_operand,
        {| messages := messages st ++ [User (strip raw)];
           total_tokens := total_tokens st + u_total (extract_usage first);
           total_prompt := total_prompt st + u_prompt (extract_usage first);
           total_completion :=
             total_completion st + u_completion (extract_usage first);
           total_reasoning := total_reasoning st |},
        t ++ [EvInput (Some raw);
              EvModel (messages st ++ [User (strip raw)]) true (Ok first)]).
Proof.
  intros Hne Hexit Hhelp Hfirst Husage Hdetails.
  assert (Hnone : u_reasoning (extract_usage first) = None).
  { unfold extract_usage. cbn [u_reasoning]. now rewrite Husage, Hdetails. }
  split; [exact Hnone|].
  cbn [while_true]. unfold lbind at 1.
  cbv beta iota zeta delta [loop_body lbind run emit lret].
  rewrite Hexit, Hhelp.
  destruct (String.eqb (strip raw) EmptyString) eqn:Hempty.
  { apply String.eqb_eq in Hempty. contradiction. }
  rewrite turn_unfold. cbv zeta. simpl messages. rewrite Hfirst, Hnone.
  unfold credit, reasoning_credit. rewrite Hnone. cbn [push messages
    total_tokens total_prompt total_completion total_reasoning].
  rewrite Z.add_0_r, <- app_assoc. reflexivity.
Qed.

Lemma none_reasoning_count_ends_session_witness :
  conversation_loop Sample.uncounted ["Tokyo"; "Paris"] []
  = (Raise none_operand,
     {| messages := [System system_prompt; User "Tokyo"];
        total_tokens := 62; total_prompt := 50; total_completion := 12;
        total_reasoning := 0 |},
     [EvPrint OutBanner; EvInput (Some "Tokyo");
      EvModel [System system_prompt; User "Tokyo"] true
        (Ok Sample.silent)]).
Proof.
  unfold conversation_loop.
  cbv beta iota zeta delta [lbind run print emit read].
  destruct (none_reasoning_count_ends_session Sample.uncounted "Tokyo"
              ["Paris"] initial_state ([] ++ [EvPrint OutBanner])
              Sample.silent
              {| attr_prompt_tokens := Some 50;
                 attr_completion_tokens := Some 12;
                 attr_total_tokens := Some 62;
                 attr_completion_tokens_details :=
                   Some {| attr_reasoning_tokens := Some None |} |}
              ltac:(discriminate) ltac:(reflexivity) ltac:(reflexivity)
              ltac:(reflexivity) ltac:(reflexivity) ltac:(reflexivity))
    as [_ H].
  rewrite H. reflexivity.
Defined.

(* ====================================================================== *)
(** ** A model call that fails *)
(* ====================================================================== *)

(** C3, what the code does.  When the first model call of a turn raises,
    the exception leaves [conversation_loop]: the loop stops there, with
    the user turn already appended and unanswered, the lines still waiting
    on the console are never read, and nothing is printed after the call. *)
Theorem model_call_failure_ends_session (E : env) (raw : string)
    (rest : list string) (st : state) (t : trace) (e : pyexn) :
  strip raw <> EmptyString ->
  mem_string (lower (strip raw)) exit_commands = false ->
  mem_string (lower (strip raw)) help_commands = false ->
  chat_create E (t ++ [EvInput (Some raw)])
    (messages st ++ [User (strip raw)]) true = Raise e ->
  while_true E (raw :: rest) st t
  = (Raise e, push st [User (strip raw)],
     t ++ [EvInput (Some raw);
           EvModel (messages st ++ [User (strip raw)]) true (Raise e)]).
Proof.
  intros Hne Hexit Hhelp Hfail.
  cbn [while_true]. unfold lbind at 1.
  cbv beta iota zeta delta [loop_body lbind run emit lret].
  rewrite Hexit, Hhelp.
  destruct (String.eqb (strip raw) EmptyString) eqn:Hempty.
  { apply String.eqb_eq in Hempty. contradiction. }
  rewrite turn_unfold. cbv zeta. simpl messages. rewrite Hfail.
  now rewrite <- app_assoc.
Qed.

Lemma model_call_failure_ends_session_witness :
  conversation_loop Sample.world ["Nowhere"; "Tokyo"] []
  = (Raise (Exn "APIConnectionError" "Connection error."),
     push initial_state [User "Nowhere"],
     [EvPrint OutBanner; EvInput (Some "Nowhere");
      EvModel (messages initial_state ++ [User "Nowhere"]) true
        (Raise (Exn "APIConnectionError" "Connection error."))]).
Proof.
  unfold conversation_loop.
  cbv beta iota zeta delta [lbind run print emit read].
  rewrite (model_call_failure_ends_session Sample.world "Nowhere" ["Tokyo"]
             initial_state ([] ++ [EvPrint OutBanner])
             (Exn "APIConnectionError" "Connection error."));
    [reflexivity | discriminate | reflexivity | reflexivity | reflexivity].
Defined.

(* ====================================================================== *)
(** ** Celsius to Fahrenheit *)
(* ====================================================================== *)

Import F64.
Local Open Scope Z_scope.

Section Rounding.

Lemma rne_bounds (n d : Z) :
  0 < d -> n / d <= rne n d <= n / d + 1.
Proof.
  intro Hd. unfold rne.
  destruct (2 * (n mod d) <? d); [lia|].
  destruct (d <? 2 * (n mod d)); [lia|].
  destruct (Z.even (n / d)); lia.
Qed.

Lemma rne_zero (d : Z) : 0 < d -> rne 0 d = 0.
Proof.
  intro Hd. unfold rne. rewrite Z.div_0_l, Z.mod_0_l by lia.
  destruct (2 * 0 <? d) eqn:H; [reflexivity|].
  apply Z.ltb_ge in H. lia.
Qed.

Lemma rne_exact (n d : Z) : 0 < d -> n mod d = 0 -> rne n d = n / d.
Proof.
  intros Hd Hr. unfold rne. rewrite Hr.
  destruct (2 * 0 <? d) eqn:H; [reflexivity|].
  apply Z.ltb_ge in H. lia.
Qed.

Lemma rne_mono (n1 n2 d : Z) :
  0 < d -> n1 <= n2 -> rne n1 d <= rne n2 d.
Proof.
  intros Hd Hle.
  pose proof (Z.div_le_mono n1 n2 d Hd Hle) as Hq.
  destruct (Z.eq_dec (n1 / d) (n2 / d)) as [Heq|Hne].
  - pose proof (Z.div_mod n1 d ltac:(lia)) as H1.
    pose proof (Z.div_mod n2 d ltac:(lia)) as H2.
    assert (Hr : n1 mod d <= n2 mod d) by (rewrite Heq in H1; lia).
    unfold rne. rewrite Heq.
    destruct (Z.ltb_spec (2 * (n1 mod d)) d);
      destruct (Z.ltb_spec (2 * (n2 mod d)) d);
      destruct (Z.ltb_spec d (2 * (n1 mod d)));
      destruct (Z.ltb_spec d (2 * (n2 mod d)));
      destruct (Z.even (n2 / d)); lia.
  - pose proof (rne_bounds n1 d Hd). pose proof (rne_bounds n2 d Hd). lia.
Qed.

(** The rounded quotient is within half a unit of the exact one. *)
Lemma rne_near (n d : Z) :
  0 < d -> 2 * Z.abs (rne n d * d - n) <= d.
Proof.
  intro Hd.
  pose proof (Z.div_mod n d ltac:(lia)) as H.
  pose proof (Z.mod_pos_bound n d Hd) as Hb.
  unfold rne.
  destruct (Z.ltb_spec (2 * (n mod d)) d); [lia|].
  destruct (Z.ltb_spec d (2 * (n mod d))); [lia|].
  destruct (Z.even (n / d)); lia.
Qed.


Lemma high_binade (q : Z) :
  2 ^ prec <= q ->
  1 <= Z.log2 q - (prec - 1)
  /\ 2 ^ (prec - 1) * 2 ^ (Z.log2 q - (prec - 1)) <= q
     < 2 ^ prec * 2 ^ (Z.log2 q - (prec - 1)).
Proof.
  unfold prec. intro Hq.
  assert (Hpos : 0 < q) by (pose proof (Z.pow_pos_nonneg 2 53); lia).
  pose proof (Z.log2_spec q Hpos) as Hspec.
  assert (Hlog : 53 <= Z.log2 q) by (apply Z.log2_le_pow2; assumption).
  split; [lia|].
  rewrite <- !Z.pow_add_r by lia.
  replace (53 - 1 + (Z.log2 q - (53 - 1))) with (Z.log2 q) by lia.
  replace (53 + (Z.log2 q - (53 - 1))) with (Z.succ (Z.log2 q)) by lia.
  exact Hspec.
Qed.

(** In a binade above [2^53] the significand has 53 bits before rounding. *)
Lemma high_significand (n d : Z) :
  0 < d -> 2 ^ prec <= n / d ->
  let s := Z.log2 (n / d) - (prec - 1) in
  2 ^ (prec - 1) <= n / (d * 2 ^ s) < 2 ^ prec.
Proof.
  intros Hd Hq s.
  destruct (high_binade (n / d) Hq) as [Hs [Hlo Hhi]]. fold s in Hs, Hlo, Hhi.
  assert (Hp : 0 < 2 ^ s) by (apply Z.pow_pos_nonneg; lia).
  rewrite <- Z.div_div by lia.
  split.
  - apply Z.div_le_lower_bound; lia.
  - apply Z.div_lt_upper_bound; lia.
Qed.

Lemma round_mag_low (n d : Z) :
  n / d < 2 ^ prec -> round_mag n d = rne n d.
Proof.
  intro H. unfold round_mag. apply Z.ltb_lt in H. now rewrite H.
Qed.

Lemma round_mag_high (n d : Z) :
  2 ^ prec <= n / d ->
  round_mag n d
  = rne n (d * 2 ^ (Z.log2 (n / d) - (prec - 1)))
    * 2 ^ (Z.log2 (n / d) - (prec - 1)).
Proof.
  intro H. unfold round_mag. apply Z.ltb_ge in H. now rewrite H.
Qed.

(** Above [2^53] the rounded magnitude stays within its binade, ends
    included. *)
Lemma round_mag_high_bounds (n d : Z) :
  0 < d -> 2 ^ prec <= n / d ->
  let s := Z.log2 (n / d) - (prec - 1) in
  2 ^ (prec - 1) * 2 ^ s <= round_mag n d <= 2 ^ prec * 2 ^ s.
Proof.
  intros Hd Hq s.
  destruct (high_binade (n / d) Hq) as [Hs _]. fold s in Hs.
  assert (Hp : 0 < 2 ^ s) by (apply Z.pow_pos_nonneg; lia).
  pose proof (high_significand n d Hd Hq) as Hsig. cbv zeta in Hsig.
  fold s in Hsig.
  pose proof (rne_bounds n (d * 2 ^ s) ltac:(lia)) as Hb.
  rewrite (round_mag_high n d Hq). fold s.
  split; apply Z.mul_le_mono_nonneg_r; lia.
Qed.

Lemma round_mag_nonneg (n d : Z) : 0 < d -> 0 <= n -> 0 <= round_mag n d.
Proof.
  intros Hd Hn.
  assert (Hq : 0 <= n / d) by (apply Z.div_pos; lia).
  destruct (Z.lt_ge_cases (n / d) (2 ^ prec)) as [Hlow|Hhigh].
  - rewrite (round_mag_low _ _ Hlow). pose proof (rne_bounds n d Hd). lia.
  - pose proof (round_mag_high_bounds n d Hd Hhigh) as Hb. cbv zeta in Hb.
    assert (0 < 2 ^ (prec - 1)) by (apply Z.pow_pos_nonneg; unfold prec; lia).
    assert (0 <= 2 ^ (Z.log2 (n / d) - (prec - 1))) by (apply Z.pow_nonneg; lia).
    nia.
Qed.

Lemma round_mag_zero (d : Z) : 0 < d -> round_mag 0 d = 0.
Proof.
  intro Hd. rewrite round_mag_low.
  - now apply rne_zero.
  - rewrite Z.div_0_l by lia. apply Z.pow_pos_nonneg; unfold prec; lia.
Qed.

Lemma round_mag_mono (n1 n2 d : Z) :
  0 < d -> n1 <= n2 -> round_mag n1 d <= round_mag n2 d.
Proof.
  intros Hd Hle.
  pose proof (Z.div_le_mono n1 n2 d Hd Hle) as Hq.
  assert (H53 : 2 ^ prec = 2 ^ (prec - 1) * 2 ^ 1)
    by (rewrite <- Z.pow_add_r by (unfold prec; lia); f_equal).
  assert (Hp52 : 0 < 2 ^ (prec - 1))
    by (apply Z.pow_pos_nonneg; unfold prec; lia).
  destruct (Z.lt_ge_cases (n2 / d) (2 ^ prec)) as [Hlow2|Hhigh2].
  - rewrite !round_mag_low by lia. now apply rne_mono.
  - pose proof (round_mag_high_bounds n2 d Hd Hhigh2) as Hb2.
    destruct (high_binade _ Hhigh2) as [Hs2 _].
    cbv zeta in Hb2. set (s2 := Z.log2 (n2 / d) - (prec - 1)) in *.
    destruct (Z.lt_ge_cases (n1 / d) (2 ^ prec)) as [Hlow1|Hhigh1].
    + rewrite (round_mag_low _ _ Hlow1).
      pose proof (rne_bounds n1 d Hd) as Hb1.
      assert (2 ^ 1 <= 2 ^ s2) by (apply Z.pow_le_mono_r; lia).
      nia.
    + pose proof (round_mag_high_bounds n1 d Hd Hhigh1) as Hb1.
      destruct (high_binade _ Hhigh1) as [Hs1 _].
      cbv zeta in Hb1. set (s1 := Z.log2 (n1 / d) - (prec - 1)) in *.
      assert (Hs : s1 <= s2)
        by (unfold s1, s2; pose proof (Z.log2_le_mono _ _ Hq); lia).
      destruct (Z.eq_dec s1 s2) as [Heq|Hne].
      * rewrite (round_mag_high _ _ Hhigh1), (round_mag_high _ _ Hhigh2).
        fold s1 s2. rewrite Heq.
        apply Z.mul_le_mono_nonneg_r; [apply Z.pow_nonneg; lia|].
        apply rne_mono; [|assumption].
        apply Z.mul_pos_pos; [assumption|apply Z.pow_pos_nonneg; lia].
      * assert (Hstep : 2 ^ (s1 + 1) <= 2 ^ s2)
          by (apply Z.pow_le_mono_r; lia).
        rewrite Z.pow_add_r in Hstep by lia.
        assert (0 < 2 ^ s1) by (apply Z.pow_pos_nonneg; lia).
        nia.
Qed.


(** A coarse bound: rounding at most doubles the quotient. *)
Lemma round_mag_upper (n d : Z) :
  0 < d -> 0 <= n -> round_mag n d <= 2 * (n / d) + 1.
Proof.
  intros Hd Hn.
  assert (Hq : 0 <= n / d) by (apply Z.div_pos; lia).
  destruct (Z.lt_ge_cases (n / d) (2 ^ prec)) as [Hlow|Hhigh].
  - rewrite (round_mag_low _ _ Hlow). pose proof (rne_bounds n d Hd). lia.
  - pose proof (round_mag_high_bounds n d Hd Hhigh) as Hb.
    destruct (high_binade _ Hhigh) as [Hs [Hlo _]]. cbv zeta in Hb.
    assert (H53 : 2 ^ prec = 2 * 2 ^ (prec - 1)).
    { change 2 with (2 ^ 1) at 2.
      rewrite <- Z.pow_add_r by (unfold prec; lia). f_equal. }
    nia.
Qed.

(** What [round_mag] returns is on the binary64 grid. *)
Lemma round_mag_valid (n d : Z) :
  0 < d -> 0 <= n -> round_mag n d < top ->
  valid_mag (round_mag n d) = true.
Proof.
  intros Hd Hn Htop.
  pose proof (round_mag_nonneg n d Hd Hn) as Hnn.
  unfold valid_mag.
  apply andb_true_iff; split;
    [apply andb_true_iff; split;
       [apply Z.leb_le; assumption | apply Z.ltb_lt; assumption]|].
  apply orb_true_iff.
  assert (Hq : 0 <= n / d) by (apply Z.div_pos; lia).
  destruct (Z.lt_ge_cases (n / d) (2 ^ prec)) as [Hlow|Hhigh].
  - rewrite (round_mag_low _ _ Hlow).
    pose proof (rne_bounds n d Hd) as Hb.
    destruct (Z.lt_ge_cases (rne n d) (2 ^ prec)) as [Hlt|Hge].
    + left. now apply Z.ltb_lt.
    + right. assert (Heq : rne n d = 2 ^ prec) by lia.
      rewrite Heq. apply Z.eqb_eq. unfold prec.
      rewrite Z.log2_pow2 by lia. reflexivity.
  - right. apply Z.eqb_eq.
    pose proof (high_significand n d Hd Hhigh) as Hsig.
    destruct (high_binade _ Hhigh) as [Hs _].
    rewrite (round_mag_high _ _ Hhigh).
    cbv zeta in Hsig. set (s := Z.log2 (n / d) - (prec - 1)) in *.
    assert (Hp : 0 < 2 ^ s) by (apply Z.pow_pos_nonneg; lia).
    pose proof (rne_bounds n (d * 2 ^ s) ltac:(lia)) as Hb.
    set (R := rne n (d * 2 ^ s)) in *.
    assert (HR : 0 < R)
      by (assert (0 < 2 ^ (prec - 1))
            by (apply Z.pow_pos_nonneg; unfold prec; lia); lia).
    rewrite Z.log2_mul_pow2 by lia.
    destruct (Z.lt_ge_cases R (2 ^ prec)) as [Hlt|Hge].
    + assert (Hlog : Z.log2 R = prec - 1).
      { apply Z.log2_unique; [unfold prec; lia|].
        replace (Z.succ (prec - 1)) with prec by lia. lia. }
      rewrite Hlog. replace (s + (prec - 1) - (prec - 1)) with s by lia.
      apply Z.mod_mul. lia.
    + assert (Heq : R = 2 ^ prec) by lia.
      rewrite Heq. rewrite Z.log2_pow2 by (unfold prec; lia).
      replace (s + prec - (prec - 1)) with (s + 1) by lia.
      rewrite <- Z.pow_add_r by (unfold prec; lia).
      replace (prec + s) with ((prec - 1) + (s + 1)) by lia.
      rewrite Z.pow_add_r by (unfold prec; lia).
      apply Z.mod_mul.
      assert (0 < 2 ^ (s + 1)) by (apply Z.pow_pos_nonneg; lia). lia.
Qed.

Lemma key_pack (neg : bool) (m : Z) :
  0 <= m -> key (pack neg m) = sign_of neg (Z.min m top).
Proof.
  intro Hm. unfold pack.
  destruct (Z.ltb_spec m top).
  - simpl. unfold signed, sign_of. rewrite Z2N.id by assumption.
    now rewrite Z.min_l by lia.
  - simpl. unfold sign_of. now rewrite Z.min_r by lia.
Qed.

Lemma round_not_nan (neg : bool) (n d : Z) : is_nan (round neg n d) = false.
Proof.
  unfold round, pack. now destruct (round_mag n d <? top).
Qed.

Lemma round_valid (neg : bool) (n d : Z) :
  0 < d -> 0 <= n -> valid (round neg n d) = true.
Proof.
  intros Hd Hn. unfold round, pack.
  destruct (Z.ltb_spec (round_mag n d) top); [|reflexivity].
  simpl. rewrite Z2N.id by now apply round_mag_nonneg.
  now apply round_mag_valid.
Qed.

(** Rounding keeps the order of the signed exact values. *)
Lemma key_round_mono (s1 s2 : bool) (n1 n2 d : Z) :
  0 < d -> 0 <= n1 -> 0 <= n2 ->
  sign_of s1 n1 <= sign_of s2 n2 ->
  key (round s1 n1 d) <= key (round s2 n2 d).
Proof.
  intros Hd H1 H2 Hle. unfold round.
  pose proof (round_mag_nonneg n1 d Hd H1) as Hr1.
  pose proof (round_mag_nonneg n2 d Hd H2) as Hr2.
  rewrite !key_pack by assumption.
  assert (Htop : 0 < top) by (apply Z.pow_pos_nonneg; lia).
  destruct s1, s2; unfold sign_of in *.
  - pose proof (round_mag_mono n2 n1 d Hd ltac:(lia)). lia.
  - lia.
  - assert (n1 = 0) by lia. assert (n2 = 0) by lia. subst.
    rewrite round_mag_zero by assumption. lia.
  - pose proof (round_mag_mono n1 n2 d Hd ltac:(lia)). lia.
Qed.


(** A valid magnitude of at least [2^53] whole units is a whole number of
    grid steps, and so a whole number of units of [1.0]. *)
Lemma valid_big_divisible (m : Z) :
  valid_mag m = true -> 2 ^ prec * unit_one <= m ->
  m mod 2 ^ (Z.log2 m - (prec - 1)) = 0
  /\ 1074 <= Z.log2 m - (prec - 1)
  /\ 2 ^ prec <= m.
Proof.
  unfold valid_mag. intros Hv Hbig.
  apply andb_true_iff in Hv. destruct Hv as [Hrange Hgrid].
  apply andb_true_iff in Hrange. destruct Hrange as [H0 Htop].
  apply Z.leb_le in H0. apply Z.ltb_lt in Htop.
  assert (HU : 1 <= unit_one)
    by (unfold unit_one; pose proof (Z.pow_pos_nonneg 2 1074); lia).
  assert (Hp : 0 < 2 ^ prec) by (apply Z.pow_pos_nonneg; unfold prec; lia).
  assert (Hm53 : 2 ^ prec <= m).
  { assert (2 ^ prec * 1 <= 2 ^ prec * unit_one)
      by (apply Z.mul_le_mono_nonneg_l; lia).
    lia. }
  apply orb_true_iff in Hgrid. destruct Hgrid as [Hlt | Hmod].
  { apply Z.ltb_lt in Hlt. lia. }
  apply Z.eqb_eq in Hmod.
  split; [assumption|]. split; [|assumption].
  assert (Hlog : prec + 1074 <= Z.log2 m).
  { apply Z.log2_le_pow2; [lia|].
    rewrite Z.pow_add_r by (unfold prec; lia). exact Hbig. }
  lia.
Qed.

Lemma top_above_small : 8 * (2 ^ prec * unit_one) + 1 < top.
Proof. vm_compute. reflexivity. Qed.

(** [round(x, 1)] never overflows on a binary64 number. *)
Lemma round1_magnitude (m : Z) :
  valid_mag m = true ->
  round_mag (rne (10 * m) unit_one * unit_one) 10 < top.
Proof.
  intro Hv.
  assert (HU : 0 < unit_one) by (apply Z.pow_pos_nonneg; lia).
  assert (Hm : 0 <= m < top).
  { unfold valid_mag in Hv. apply andb_true_iff in Hv. destruct Hv as [Hr _].
    apply andb_true_iff in Hr. destruct Hr as [H0 H1].
    apply Z.leb_le in H0. apply Z.ltb_lt in H1. lia. }
  destruct (Z.lt_ge_cases m (2 ^ prec * unit_one)) as [Hsmall|Hbig].
  - pose proof (rne_bounds (10 * m) unit_one HU) as Hb.
    pose proof (Z.mul_div_le (10 * m) unit_one HU) as Hfloor.
    set (k := rne (10 * m) unit_one) in *.
    assert (Hk : 0 <= k)
      by (assert (0 <= 10 * m / unit_one) by (apply Z.div_pos; lia); lia).
    pose proof (round_mag_upper (k * unit_one) 10 ltac:(lia) ltac:(nia)) as Hup.
    assert (Hq : k * unit_one / 10 <= 4 * (2 ^ prec * unit_one)).
    { apply Z.lt_succ_r. apply Z.div_lt_upper_bound; [lia|].
      assert (Hp : 1 <= 2 ^ prec)
        by (pose proof (Z.pow_pos_nonneg 2 prec); unfold prec in *; lia).
      assert (HkU : k * unit_one
                    <= (10 * m / unit_one) * unit_one + unit_one)
        by (pose proof (Z.mul_le_mono_nonneg_r k (10 * m / unit_one + 1)
                          unit_one ltac:(lia) ltac:(lia)); lia).
      assert (HPU : unit_one <= 2 ^ prec * unit_one)
        by (apply (Z.mul_le_mono_nonneg_r 1 (2 ^ prec) unit_one); lia).
      lia. }
    pose proof top_above_small. lia.
  - destruct (valid_big_divisible m Hv Hbig) as [Hmod [He H53]].
    set (e := Z.log2 m - (prec - 1)) in *.
    assert (Hpe : 0 < 2 ^ e) by (apply Z.pow_pos_nonneg; lia).
    assert (Hsplit : 2 ^ e = 2 ^ (e - 1074) * unit_one).
    { unfold unit_one. rewrite <- Z.pow_add_r by lia. f_equal. lia. }
    assert (Hdiv : m = (m / 2 ^ e) * 2 ^ e).
    { pose proof (Z.div_mod m (2 ^ e) ltac:(lia)). lia. }
    set (j := m / 2 ^ e) in *.
    assert (HmU : 10 * m = (10 * j * 2 ^ (e - 1074)) * unit_one)
      by (rewrite Hdiv at 1; rewrite Hsplit; ring).
    assert (Hk : rne (10 * m) unit_one = 10 * j * 2 ^ (e - 1074)).
    { rewrite rne_exact; [|assumption|].
      - rewrite HmU. apply Z.div_mul. lia.
      - rewrite HmU. apply Z.mod_mul. lia. }
    rewrite Hk, <- HmU.
    assert (Hq : 10 * m / 10 = m)
      by (rewrite Z.mul_comm; apply Z.div_mul; lia).
    rewrite round_mag_high by (rewrite Hq; assumption).
    rewrite Hq. fold e.
    assert (Hexact : 10 * m = j * (10 * 2 ^ e))
      by (rewrite Hdiv at 1; ring).
    rewrite rne_exact; [| lia |].
    + rewrite Hexact. rewrite Z.div_mul by lia. lia.
    + rewrite Hexact. apply Z.mod_mul. lia.
Qed.

Lemma round1_returns (x : float) :
  valid x = true ->
  exists r, round1 x = Some r /\ valid r = true
            /\ is_nan r = is_nan x.
Proof.
  destruct x as [|s|s m]; intro Hv.
  - exists NaN. auto.
  - exists (Inf s). auto.
  - simpl in Hv. pose proof (round1_magnitude _ Hv) as Hfin.
    assert (HU : 0 < unit_one) by (apply Z.pow_pos_nonneg; lia).
    assert (Hk : 0 <= rne (10 * Z.of_N m) unit_one).
    { pose proof (rne_bounds (10 * Z.of_N m) unit_one HU).
      assert (0 <= 10 * Z.of_N m / unit_one) by (apply Z.div_pos; lia). lia. }
    unfold round1.
    pose proof (round_valid s (rne (10 * Z.of_N m) unit_one * unit_one) 10
                  ltac:(lia) ltac:(nia)) as Hval.
    unfold round, pack in *. apply Z.ltb_lt in Hfin. rewrite Hfin in *.
    eexists. split; [reflexivity|]. split; [exact Hval | reflexivity].
Qed.


(** *** The order through each operation of [c_to_f] *)

Lemma fle_key (x y : float) :
  fle x y = true <-> is_nan x = false /\ is_nan y = false /\ key x <= key y.
Proof.
  unfold fle. rewrite !andb_true_iff, !negb_true_iff, Z.leb_le. tauto.
Qed.

Lemma top_pos : 0 < top.
Proof. apply Z.pow_pos_nonneg; lia. Qed.

Lemma unit_one_pos : 0 < unit_one.
Proof. apply Z.pow_pos_nonneg; lia. Qed.

Lemma key_round_bounds (s : bool) (n d : Z) :
  0 < d -> 0 <= n -> - top <= key (round s n d) <= top.
Proof.
  intros Hd Hn. unfold round.
  rewrite key_pack by now apply round_mag_nonneg.
  pose proof (round_mag_nonneg n d Hd Hn). pose proof top_pos.
  destruct s; unfold sign_of; lia.
Qed.

Lemma key_valid_fin (s : bool) (m : N) :
  valid (Fin s m) = true -> - top < key (Fin s m) < top.
Proof.
  unfold valid, key, valid_mag. intro Hv.
  apply andb_true_iff in Hv. destruct Hv as [Hr _].
  apply andb_true_iff in Hr. destruct Hr as [H0 H1].
  apply Z.leb_le in H0. apply Z.ltb_lt in H1.
  unfold signed. destruct s; lia.
Qed.

(** An operation that keeps the infinities and sends a finite number to the
    rounding of an increasing function of its signed value keeps the
    order. *)
Lemma rounding_keeps_order (f : float -> float)
    (sg : bool -> N -> bool) (num : bool -> N -> Z) (d : Z) :
  0 < d ->
  (forall s, f (Inf s) = Inf s) ->
  (forall s m, f (Fin s m) = round (sg s m) (num s m) d) ->
  (forall s m, 0 <= num s m) ->
  (forall s1 m1 s2 m2,
     signed s1 m1 <= signed s2 m2 ->
     sign_of (sg s1 m1) (num s1 m1) <= sign_of (sg s2 m2) (num s2 m2)) ->
  forall x y, float_le x y -> float_le (f x) (f y).
Proof.
  intros Hd Hinf Hfin Hnum Hmono x y [Hvx [Hvy Hle]].
  apply fle_key in Hle. destruct Hle as [Hnx [Hny Hk]].
  pose proof top_pos as Htop.
  destruct x as [|s1|s1 m1]; [discriminate| |];
    destruct y as [|s2|s2 m2]; try discriminate;
    rewrite ?Hinf, ?Hfin;
    (split; [reflexivity || (apply round_valid; auto)|];
     split; [reflexivity || (apply round_valid; auto)|];
     apply fle_key;
     split; [reflexivity || apply round_not_nan|];
     split; [reflexivity || apply round_not_nan|]).
  - exact Hk.
  - pose proof (key_valid_fin _ _ Hvy).
    pose proof (key_round_bounds (sg s2 m2) (num s2 m2) d Hd (Hnum _ _)).
    destruct s1; unfold key in *; lia.
  - pose proof (key_valid_fin _ _ Hvx).
    pose proof (key_round_bounds (sg s1 m1) (num s1 m1) d Hd (Hnum _ _)).
    destruct s2; unfold key in *; lia.
  - apply key_round_mono; auto.
Qed.

Lemma nine_eq : of_Z 9 = Fin false (Z.to_N (9 * unit_one)).
Proof. vm_compute. reflexivity. Qed.

Lemma five_eq : of_Z 5 = Fin false (Z.to_N (5 * unit_one)).
Proof. vm_compute. reflexivity. Qed.

Lemma thirty_two_eq : of_Z 32 = Fin false (Z.to_N (32 * unit_one)).
Proof. vm_compute. reflexivity. Qed.

Lemma one_eq : of_Z 1 = Fin false (Z.to_N unit_one).
Proof. vm_compute. reflexivity. Qed.

Lemma scaled_nonzero (k : Z) :
  0 < k -> N.eqb (Z.to_N (k * unit_one)) 0 = false.
Proof.
  intro Hk. apply N.eqb_neq. pose proof unit_one_pos. lia.
Qed.

Lemma times_nine_keeps_order (x y : float) :
  float_le x y -> float_le (fmul x (of_Z 9)) (fmul y (of_Z 9)).
Proof.
  rewrite nine_eq. pose proof unit_one_pos as HU.
  apply (rounding_keeps_order (fun x => fmul x _) (fun s _ => s)
           (fun _ m => Z.of_N m * (9 * unit_one)) unit_one HU).
  - intro s. unfold fmul. rewrite scaled_nonzero by lia. now destruct s.
  - intros s m. unfold fmul. rewrite Z2N.id by lia. now rewrite xorb_false_r.
  - intros. nia.
  - intros s1 m1 s2 m2. unfold signed, sign_of.
    destruct s1, s2; nia.
Qed.

Lemma over_five_keeps_order (x y : float) :
  float_le x y -> float_le (fdiv x (of_Z 5)) (fdiv y (of_Z 5)).
Proof.
  rewrite five_eq. pose proof unit_one_pos as HU.
  apply (rounding_keeps_order (fun x => fdiv x _) (fun s _ => s)
           (fun _ m => Z.of_N m * unit_one) (5 * unit_one) ltac:(lia)).
  - intro s. unfold fdiv. now destruct s.
  - intros s m. unfold fdiv. rewrite scaled_nonzero by lia.
    rewrite Z2N.id by lia. now rewrite xorb_false_r.
  - intros. nia.
  - intros s1 m1 s2 m2. unfold signed, sign_of.
    destruct s1, s2; nia.
Qed.

Lemma plus_thirty_two_keeps_order (x y : float) :
  float_le x y -> float_le (fadd x (of_Z 32)) (fadd y (of_Z 32)).
Proof.
  rewrite thirty_two_eq. pose proof unit_one_pos as HU.
  apply (rounding_keeps_order (fun x => fadd x _)
           (fun s m => signed s m + 32 * unit_one <? 0)
           (fun s m => Z.abs (signed s m + 32 * unit_one)) 1 ltac:(lia)).
  - intro s. reflexivity.
  - intros s m. unfold fadd.
    replace (signed false (Z.to_N (32 * unit_one))) with (32 * unit_one)
      by (unfold signed; rewrite Z2N.id; lia).
    destruct (Z.eqb_spec (signed s m + 32 * unit_one) 0) as [Hz|Hz];
      [|reflexivity].
    rewrite Hz. change (0 <? 0) with false. change (Z.abs 0) with 0.
    unfold round. rewrite round_mag_zero by lia.
    rewrite andb_false_r. reflexivity.
  - intros. lia.
  - intros s1 m1 s2 m2 Hle. unfold sign_of.
    destruct (Z.ltb_spec (signed s1 m1 + 32 * unit_one) 0);
      destruct (Z.ltb_spec (signed s2 m2 + 32 * unit_one) 0); lia.
Qed.


Lemma rne_nonneg (n d : Z) : 0 < d -> 0 <= n -> 0 <= rne n d.
Proof.
  intros Hd Hn. pose proof (rne_bounds n d Hd).
  assert (0 <= n / d) by (apply Z.div_pos; lia). lia.
Qed.

(** On a binary64 number [round(x, 1)] is the nearest double to [k / 10],
    where [k] is the whole number of tenths nearest to [x]. *)
Lemma round1_finite (s : bool) (m : N) :
  valid (Fin s m) = true ->
  round1 (Fin s m)
  = Some (round s (rne (10 * Z.of_N m) unit_one * unit_one) 10).
Proof.
  intro Hv. unfold valid in Hv. pose proof (round1_magnitude _ Hv) as Hfin.
  unfold round1, round, pack. apply Z.ltb_lt in Hfin. now rewrite Hfin.
Qed.

Lemma round1_keeps_order (x y r1 r2 : float) :
  float_le x y -> round1 x = Some r1 -> round1 y = Some r2 ->
  float_le r1 r2.
Proof.
  intros Hle H1 H2. pose proof unit_one_pos as HU.
  pose (f := fun x => match x with
                      | Fin s m =>
                          round s (rne (10 * Z.of_N m) unit_one * unit_one) 10
                      | other => other
                      end).
  assert (Hf : forall z r, valid z = true -> round1 z = Some r -> r = f z).
  { intros z r Hv Hr. destruct z as [|s|s m].
    - now injection Hr as <-.
    - now injection Hr as <-.
    - rewrite (round1_finite s m Hv) in Hr. now injection Hr as <-. }
  destruct Hle as [Hvx [Hvy Hxy]].
  rewrite (Hf x r1 Hvx H1), (Hf y r2 Hvy H2).
  apply (rounding_keeps_order f (fun s _ => s)
           (fun _ m => rne (10 * Z.of_N m) unit_one * unit_one) 10
           ltac:(lia)).
  - reflexivity.
  - reflexivity.
  - intros _ m. pose proof (rne_nonneg (10 * Z.of_N m) unit_one HU).
    nia.
  - intros s1 m1 s2 m2. unfold signed, sign_of. intro Hs.
    pose proof (rne_nonneg (10 * Z.of_N m1) unit_one HU ltac:(lia)) as Hk1.
    pose proof (rne_nonneg (10 * Z.of_N m2) unit_one HU ltac:(lia)) as Hk2.
    destruct s1, s2.
    + pose proof (rne_mono (10 * Z.of_N m2) (10 * Z.of_N m1) unit_one HU
                    ltac:(lia)). nia.
    + nia.
    + assert (Z.of_N m1 = 0) by lia. assert (Z.of_N m2 = 0) by lia.
      replace (10 * Z.of_N m1) with 0 by lia.
      replace (10 * Z.of_N m2) with 0 by lia.
      rewrite rne_zero by assumption. lia.
    + pose proof (rne_mono (10 * Z.of_N m1) (10 * Z.of_N m2) unit_one HU
                    ltac:(lia)). nia.
  - repeat split; assumption.
Qed.

Lemma fadd_valid (x y : float) : valid (fadd x y) = true.
Proof.
  destruct x as [|s1|s1 m1], y as [|s2|s2 m2]; try reflexivity.
  - unfold fadd. now destruct (Bool.eqb s1 s2).
  - unfold fadd.
    destruct (signed s1 m1 + signed s2 m2 =? 0); [reflexivity|].
    apply round_valid; lia.
Qed.

Lemma celsius_sum_keeps_order (c1 c2 : float) :
  float_le c1 c2 -> float_le (celsius_sum c1) (celsius_sum c2).
Proof.
  intro H. unfold celsius_sum.
  now apply plus_thirty_two_keeps_order, over_five_keeps_order,
    times_nine_keeps_order.
Qed.

(** [c_to_f] on a float is [round(., 1)] of the binary64 value of
    [c * 9 / 5 + 32]. *)
Lemma c_to_f_float (c : float) :
  c_to_f (PFloat c)
  = match round1 (celsius_sum c) with
    | Some r => Ok (PFloat r)
    | None =>
        Raise (Exn "OverflowError" "rounded value too large to represent")
    end.
Proof. reflexivity. Qed.

Lemma c_to_f_returns (c : float) :
  exists r,
    c_to_f (PFloat c) = Ok (PFloat r)
    /\ round1 (celsius_sum c) = Some r
    /\ valid r = true.
Proof.
  destruct (round1_returns (celsius_sum c) (fadd_valid _ _))
    as [r [Hr [Hv _]]].
  exists r. rewrite c_to_f_float, Hr. auto.
Qed.

Lemma c_to_f_freezing : c_to_f (PFloat (of_Z 0)) = Ok (PFloat (of_Z 32)).
Proof. vm_compute. reflexivity. Qed.

Lemma c_to_f_boiling : c_to_f (PFloat (of_Z 100)) = Ok (PFloat (of_Z 212)).
Proof. vm_compute. reflexivity. Qed.

Lemma c_to_f_minus_17_2 :
  c_to_f (PFloat (of_decimal (-172) 10)) = Ok (PFloat (of_Z 1)).
Proof. vm_compute. reflexivity. Qed.

Lemma c_to_f_minus_17_8 :
  c_to_f (PFloat (of_decimal (-178) 10)) = Ok (PFloat (Fin true 0)).
Proof. vm_compute. reflexivity. Qed.

End Rounding.

(** C8, as the code has it.  For every Celsius float [c], [c_to_f(c)]
    returns (it never raises) the binary64 value of [c * 9 / 5 + 32] rounded
    to one decimal place: the nearest whole number of tenths, ties to even,
    converted back to the nearest double.  The function is monotonic: on
    binary64 inputs [c1 <= c2] it gives [c_to_f(c1) <= c_to_f(c2)].
    [c_to_f(0) = 32.0], [c_to_f(100) = 212.0] and [c_to_f(-17.2) = 1.0]; it
    is [c_to_f(-17.8)] that is [-0.0]. *)
Theorem c_to_f_rounds_and_is_monotone :
  (forall c, exists r,
      c_to_f (PFloat c) = Ok (PFloat r)
      /\ round1 (celsius_sum c) = Some r)
  /\ (forall s m,
        valid (Fin s m) = true ->
        let k := rne (10 * Z.of_N m) unit_one in
        round1 (Fin s m) = Some (round s (k * unit_one) 10)
        /\ 2 * Z.abs (k * unit_one - 10 * Z.of_N m) <= unit_one)
  /\ (forall c1 c2 r1 r2,
        valid c1 = true -> valid c2 = true -> fle c1 c2 = true ->
        c_to_f (PFloat c1) = Ok (PFloat r1) ->
        c_to_f (PFloat c2) = Ok (PFloat r2) ->
        fle r1 r2 = true)
  /\ c_to_f (PFloat (of_Z 0)) = Ok (PFloat (of_Z 32))
  /\ c_to_f (PFloat (of_Z 100)) = Ok (PFloat (of_Z 212))
  /\ c_to_f (PFloat (of_decimal (-172) 10)) = Ok (PFloat (of_Z 1))
  /\ c_to_f (PFloat (of_decimal (-178) 10)) = Ok (PFloat (Fin true 0)).
Proof.
  split; [|split; [|split; [|split; [|split; [|split]]]]].
  - intro c. destruct (c_to_f_returns c) as [r [H1 [H2 _]]]. eauto.
  - intros s m Hv k. split; [now apply round1_finite|].
    apply rne_near. apply unit_one_pos.
  - intros c1 c2 r1 r2 Hv1 Hv2 Hle H1 H2.
    rewrite c_to_f_float in H1, H2.
    destruct (round1 (celsius_sum c1)) as [q1|] eqn:Hq1; [|discriminate].
    destruct (round1 (celsius_sum c2)) as [q2|] eqn:Hq2; [|discriminate].
    injection H1 as <-. injection H2 as <-.
    assert (Hsum : float_le (celsius_sum c1) (celsius_sum c2))
      by (apply celsius_sum_keeps_order; repeat split; assumption).
    destruct (round1_keeps_order _ _ _ _ Hsum Hq1 Hq2) as [_ [_ H]].
    exact H.
  - exact c_to_f_freezing.
  - exact c_to_f_boiling.
  - exact c_to_f_minus_17_2.
  - exact c_to_f_minus_17_8.
Qed.

Lemma c_to_f_rounds_and_is_monotone_witness :
  fle (of_Z 32) (of_Z 212) = true.
Proof.
  destruct c_to_f_rounds_and_is_monotone
    as [_ [_ [Hmono [Hfreezing [Hboiling _]]]]].
  apply (Hmono (of_Z 0) (of_Z 100) (of_Z 32) (of_Z 212)).
  - vm_compute. reflexivity.
  - vm_compute. reflexivity.
  - vm_compute. reflexivity.
  - exact Hfreezing.
  - exact Hboiling.
Defined.

(** C8 as stated fails at its third example: [c_to_f(-17.2)] is [1.0],
    which is neither [-0.0] nor equal to zero. *)
Lemma c_to_f_minus_zero_counterexample :
  c_to_f (PFloat (of_decimal (-172) 10)) <> Ok (PFloat (Fin true 0))
  /\ (forall r,
        c_to_f (PFloat (of_decimal (-172) 10)) = Ok (PFloat r) ->
        feq r (Fin true 0) = false).
Proof.
  rewrite c_to_f_minus_17_2, one_eq. split.
  - intro H.
    apply (f_equal (fun r => match r with
                             | Ok (PFloat (Fin s _)) => s
                             | _ => true
                             end)) in H.
    discriminate H.
  - intros r H.
    assert (Hr : r = Fin false (Z.to_N unit_one)) by congruence.
    rewrite Hr. vm_compute. reflexivity.
Qed.

(* ====================================================================== *)
(** ** More on the tools *)
(* ====================================================================== *)

(** X1. [geocode_city] never raises: whatever the geocoding service does
    and whatever its body holds, the function returns a dictionary, after
    exactly one request to the geocoding URL with the city as [name] and a
    timeout of 8. *)
Theorem geocode_city_never_raises (E : env) (city : pyval) (t : trace) :
  exists geo out,
    geocode_city E city t
    = (Ok geo, t ++ [EvHttp geocoding_url (geocoding_params city) 8 out])
    /\ dict_get (geocoding_params city) "name" = Some city
    /\ dict_get geo "city" = Some city.
Proof.
  destruct (geocode_city_returns E city t) as [geo Hgeo].
  exists geo. eexists. split; [exact Hgeo|]. split; [reflexivity|].
  destruct (geocode_city_shape E city t geo _ Hgeo)
    as [[e ->] | [n [c [la [lo ->]]]]]; reflexivity.
Qed.

(** X2. [fetch_weather] never raises: it returns a dictionary that keeps
    the coordinates it was given, after exactly one request to the forecast
    URL for those coordinates with a timeout of 8. *)
Theorem fetch_weather_never_raises (E : env) (la lo : pyval) (t : trace) :
  exists weather out,
    fetch_weather E la lo t
    = (Ok weather, t ++ [EvHttp forecast_url (forecast_params la lo) 8 out])
    /\ dict_get (forecast_params la lo) "latitude" = Some la
    /\ dict_get (forecast_params la lo) "longitude" = Some lo
    /\ dict_get (forecast_params la lo) "current"
       = Some (PStr "temperature_2m")
    /\ dict_get weather "latitude" = Some la
    /\ dict_get weather "longitude" = Some lo.
Proof.
  destruct (fetch_weather_returns E la lo t) as [w Hw].
  exists w. eexists. split; [exact Hw|].
  repeat (split; [reflexivity|]).
  revert Hw. unfold fetch_weather. step_m.
  destruct (requests_get E t forecast_url _).
  - intro H. injection H as <-. split; reflexivity.
  - split_matches; intro H; injection H as <-; split; reflexivity.
Qed.

(** X3. When the geocoding service answers (no 4xx/5xx) with a JSON object
    whose ["results"] is missing, null or empty, or whose first result is
    empty, [geocode_city] returns the failure city_not_found for the
    city. *)
Theorem geocode_city_not_found (E : env) (city : pyval) (t : trace)
    (r : response) (body : dict) :
  requests_get E t geocoding_url (geocoding_params city) = HttpReturns r ->
  raise_for_status r = Ok tt ->
  json_body r = Ok (PDict body) ->
  truthy (get body "results") = false
  \/ (exists x rest,
        get body "results" = PList (x :: rest) /\ truthy x = false) ->
  fst (geocode_city E city t)
  = Ok [("error", PStr "city_not_found"); ("city", city)].
Proof.
  intros Hget Hstatus Hbody Hres.
  unfold geocode_city. fold (geocoding_params city). step_m.
  rewrite Hget, Hstatus, Hbody. cbn [py_get].
  destruct Hres as [Hfalsy | [x [rest [Hlist Hx]]]].
  - rewrite Hfalsy. cbn [py_first truthy negb]. reflexivity.
  - rewrite Hlist. cbn [truthy py_first]. rewrite Hx. reflexivity.
Qed.

Lemma geocode_city_not_found_witness :
  fst (geocode_city Sample.world (PStr "Utopia") [])
  = Ok [("error", PStr "city_not_found"); ("city", PStr "Utopia")].
Proof.
  apply (geocode_city_not_found Sample.world (PStr "Utopia") []
           {| status_code := 200; status_text := EmptyString;
              json_body := Ok (PDict []) |} []);
    [reflexivity | reflexivity | reflexivity | left; reflexivity].
Defined.

(** X4. When the first result of the geocoding service is a non-empty
    object, [geocode_city] returns the city with that result's name,
    country, latitude and longitude, [None] standing for each one the
    result lacks; no ["error"] entry is present. *)
Theorem geocode_city_match (E : env) (city : pyval) (t : trace)
    (r : response) (body first : dict) (rest : list pyval) :
  requests_get E t geocoding_url (geocoding_params city) = HttpReturns r ->
  raise_for_status r = Ok tt ->
  json_body r = Ok (PDict body) ->
  get body "results" = PList (PDict first :: rest) ->
  first <> [] ->
  fst (geocode_city E city t)
  = Ok [("city", city); ("resolved_name", get first "name");
        ("country", get first "country");
        ("latitude", get first "latitude");
        ("longitude", get first "longitude")].
Proof.
  intros Hget Hstatus Hbody Hres Hne.
  unfold geocode_city. fold (geocoding_params city). step_m.
  rewrite Hget, Hstatus, Hbody. cbn [py_get]. rewrite Hres.
  cbn [truthy py_first].
  destruct first as [|kv first']; [contradiction|].
  cbn [truthy negb py_get]. reflexivity.
Qed.

Lemma geocode_city_match_witness :
  exists la lo,
    fst (geocode_city Sample.world (PStr "Tokyo") [])
    = Ok [("city", PStr "Tokyo"); ("resolved_name", PStr "Tokyo");
          ("country", PStr "Japan"); ("latitude", la); ("longitude", lo)].
Proof.
  eexists. eexists.
  refine (geocode_city_match Sample.world (PStr "Tokyo") []
            {| status_code := 200; status_text := EmptyString;
               json_body := Ok (PDict [("results", PList [Sample.tokyo])]) |}
            [("results", PList [Sample.tokyo])]
            [("name", PStr "Tokyo"); ("country", PStr "Japan");
             ("latitude", _); ("longitude", _)] [] _ _ _ _ _);
    [reflexivity | reflexivity | reflexivity | reflexivity | discriminate].
Defined.

(** X5. When the forecast service answers with a JSON object that has no
    current block, or whose current block has no temperature_2m entry or a
    null one, [fetch_weather] returns the failure temperature_unavailable
    with the coordinates. *)
Theorem fetch_weather_no_reading (E : env) (la lo : pyval) (t : trace)
    (r : response) (body current : dict) :
  requests_get E t forecast_url (forecast_params la lo) = HttpReturns r ->
  raise_for_status r = Ok tt ->
  json_body r = Ok (PDict body) ->
  current_of body = PDict current ->
  get current "temperature_2m" = PNone ->
  fst (fetch_weather E la lo t)
  = Ok [("error", PStr "temperature_unavailable");
        ("latitude", la); ("longitude", lo)].
Proof.
  intros Hget Hstatus Hbody Hcur Htemp.
  unfold fetch_weather. fold (forecast_params la lo). step_m.
  rewrite Hget, Hstatus, Hbody. cbn [py_get_default].
  unfold current_of in Hcur. rewrite Hcur. cbn [py_get].
  rewrite Htemp. reflexivity.
Qed.

Lemma fetch_weather_no_reading_witness :
  fst (fetch_weather Sample.no_reading (PInt 1) (PInt 2) [])
  = Ok [("error", PStr "temperature_unavailable");
        ("latitude", PInt 1); ("longitude", PInt 2)].
Proof.
  apply (fetch_weather_no_reading Sample.no_reading (PInt 1) (PInt 2) []
           {| status_code := 200; status_text := EmptyString;
              json_body :=
                Ok (PDict [("current", PDict [("time", PStr "now")])]) |}
           [("current", PDict [("time", PStr "now")])]
           [("time", PStr "now")]);
    reflexivity.
Defined.

(** X6. When the current block holds a float reading, [fetch_weather]
    returns the coordinates, the reading as temperature_c, its conversion
    by [c_to_f] as temperature_f and the block's time as timestamp; the
    conversion never fails on a float. *)
Theorem fetch_weather_reading (E : env) (la lo : pyval) (t : trace)
    (r : response) (body current : dict) (x : F64.float) :
  requests_get E t forecast_url (forecast_params la lo) = HttpReturns r ->
  raise_for_status r = Ok tt ->
  json_body r = Ok (PDict body) ->
  current_of body = PDict current ->
  get current "temperature_2m" = PFloat x ->
  exists f,
    c_to_f (PFloat x) = Ok (PFloat f)
    /\ fst (fetch_weather E la lo t)
       = Ok [("latitude", la); ("longitude", lo);
             ("temperature_c", PFloat x); ("temperature_f", PFloat f);
             ("timestamp", get current "time")].
Proof.
  intros Hget Hstatus Hbody Hcur Htemp.
  destruct (c_to_f_returns x) as [f [Hf _]].
  exists f. split; [exact Hf|].
  unfold fetch_weather. fold (forecast_params la lo). step_m.
  rewrite Hget, Hstatus, Hbody. cbn [py_get_default].
  unfold current_of in Hcur. rewrite Hcur. cbn [py_get].
  rewrite Htemp. cbn [is_none]. rewrite Hf. reflexivity.
Qed.

(** X7. When the reading is there but cannot be converted ([c_to_f]
    raises, as it does on a string, a list or an object), [fetch_weather]
    does not raise: it returns a failure with the exception's text and the
    coordinates. *)
Theorem fetch_weather_bad_reading (E : env) (la lo : pyval) (t : trace)
    (r : response) (body current : dict) (temp : pyval) (e : pyexn) :
  requests_get E t forecast_url (forecast_params la lo) = HttpReturns r ->
  raise_for_status r = Ok tt ->
  json_body r = Ok (PDict body) ->
  current_of body = PDict current ->
  get current "temperature_2m" = temp ->
  temp <> PNone ->
  c_to_f temp = Raise e ->
  fst (fetch_weather E la lo t)
  = Ok [("error", PStr (str_exn e)); ("latitude", la); ("longitude", lo)]
  /\ (forall s, exists e', c_to_f (PStr s) = Raise e')
  /\ (forall l, exists e', c_to_f (PList l) = Raise e')
  /\ (forall d, exists e', c_to_f (PDict d) = Raise e').
Proof.
  intros Hget Hstatus Hbody Hcur Htemp Hsome Hraise.
  split; [|split; [|split]]; try (intros; eexists; reflexivity).
  unfold fetch_weather. fold (forecast_params la lo). step_m.
  rewrite Hget, Hstatus, Hbody. cbn [py_get_default].
  unfold current_of in Hcur. rewrite Hcur. cbn [py_get].
  rewrite Htemp.
  destruct temp; try (rewrite Hraise; reflexivity).
  contradiction Hsome. reflexivity.
Qed.

Lemma fetch_weather_bad_reading_witness :
  exists msg,
    fst (fetch_weather
           {| requests_get := fun _ _ _ =>
                Sample.ok_response
                  (PDict [("current",
                           PDict [("temperature_2m", PStr "mild")])]);
              chat_create := Sample.sample_create;
              json_loads := Sample.sample_loads;
              json_dumps := Sample.sample_dumps |}
           (PInt 1) (PInt 2) [])
    = Ok [("error", PStr msg); ("latitude", PInt 1); ("longitude", PInt 2)].
Proof.
  eexists.
  refine (proj1 (fetch_weather_bad_reading _ (PInt 1) (PInt 2) []
                   {| status_code := 200; status_text := EmptyString;
                      json_body :=
                        Ok (PDict [("current",
                                    PDict [("temperature_2m",
                                            PStr "mild")])]) |}
                   [("current", PDict [("temperature_2m", PStr "mild")])]
                   [("temperature_2m", PStr "mild")] (PStr "mild") _
                   _ _ _ _ _ _ _));
    [reflexivity | reflexivity | reflexivity | reflexivity | reflexivity
    | discriminate | reflexivity].
Defined.

Lemma fetch_weather_reading_witness :
  exists f,
    fst (fetch_weather Sample.world (PInt 1) (PInt 2) [])
    = Ok [("latitude", PInt 1); ("longitude", PInt 2);
          ("temperature_c", PFloat (F64.of_Z 20));
          ("temperature_f", PFloat f);
          ("timestamp", PStr "2025-01-01T00:00")].
Proof.
  destruct (fetch_weather_reading Sample.world (PInt 1) (PInt 2) []
              {| status_code := 200; status_text := EmptyString;
                 json_body := Ok Sample.twenty_degrees |}
              [("current",
                PDict [("time", PStr "2025-01-01T00:00");
                       ("temperature_2m", PFloat (F64.of_Z 20))])]
              [("time", PStr "2025-01-01T00:00");
               ("temperature_2m", PFloat (F64.of_Z 20))]
              (F64.of_Z 20)
              eq_refl eq_refl eq_refl eq_refl eq_refl) as [f [_ H]].
  exists f. exact H.
Defined.


(** What [fetch_weather] returns is a failure of three entries or a reading
    of five. *)
Lemma fetch_weather_shape (E : env) (la lo : pyval) (t : trace)
    (w : dict) (t' : trace) :
  fetch_weather E la lo t = (Ok w, t') ->
  (exists err, w = [("error", PStr err); ("latitude", la); ("longitude", lo)])
  \/ (exists c f ts,
        w = [("latitude", la); ("longitude", lo); ("temperature_c", c);
             ("temperature_f", f); ("timestamp", ts)]).
Proof.
  unfold fetch_weather. step_m.
  destruct (requests_get E t forecast_url _).
  - intro H. injection H as <- _. left. eexists. reflexivity.
  - split_matches; intro H; injection H as <- _;
      solve [left; eexists; reflexivity
            | right; do 3 eexists; reflexivity].
Qed.

(** X8. When the geocoder's match lacks a latitude or a longitude,
    [get_weather_by_city] returns the failure coordinates_missing together
    with what the geocoder resolved, and makes no forecast request. *)
Theorem coordinates_missing (E : env) (city n c la lo : pyval)
    (t t1 : trace) :
  geocode_city E city t
  = (Ok [("city", city); ("resolved_name", n); ("country", c);
         ("latitude", la); ("longitude", lo)], t1) ->
  la = PNone \/ lo = PNone ->
  get_weather_by_city E city t
  = (Ok [("city", city); ("error", PStr "coordinates_missing");
         ("resolved_name", n); ("country", c);
         ("latitude", la); ("longitude", lo)], t1)
  /\ (forall d, t1 = t ++ d -> http_urls d = [geocoding_url]).
Proof.
  intros Hgeo Hnone.
  split.
  - unfold get_weather_by_city. step_m. rewrite Hgeo.
    cbn [get dict_get String.eqb Ascii.eqb Bool.eqb truthy].
    destruct Hnone as [-> | ->]; cbn [is_none orb];
      [|destruct (is_none la)]; reflexivity.
  - destruct (geocode_city_returns E city t) as [geo' Hret].
    rewrite Hgeo in Hret. injection Hret as _ ->.
    intros d Hd. apply app_inv_head in Hd. now subst d.
Qed.

Lemma coordinates_missing_witness :
  get_weather_by_city Sample.unplaced (PStr "Null Island") []
  = (Ok [("city", PStr "Null Island");
         ("error", PStr "coordinates_missing");
         ("resolved_name", PStr "Null Island"); ("country", PNone);
         ("latitude", PNone); ("longitude", PNone)],
     [EvHttp geocoding_url (geocoding_params (PStr "Null Island")) 8
        (requests_get Sample.unplaced [] geocoding_url
           (geocoding_params (PStr "Null Island")))]).
Proof.
  refine (proj1 (coordinates_missing Sample.unplaced (PStr "Null Island")
                   (PStr "Null Island") PNone PNone PNone [] _ _ _)).
  - reflexivity.
  - left. reflexivity.
Defined.

(** X9. When the geocoder's match has both coordinates,
    [get_weather_by_city] asks the forecast service for exactly those
    coordinates, after the geocoding request, and returns the geocoder's
    entries with the forecast's entries written over them: a forecast
    failure comes back as the resolved place plus its ["error"], a reading
    as the resolved place plus temperature_c, temperature_f and
    timestamp. *)
Theorem geocode_then_forecast (E : env) (city n c la lo : pyval)
    (t t1 : trace) :
  geocode_city E city t
  = (Ok [("city", city); ("resolved_name", n); ("country", c);
         ("latitude", la); ("longitude", lo)], t1) ->
  la <> PNone -> lo <> PNone ->
  exists out,
    snd (get_weather_by_city E city t)
    = t1 ++ [EvHttp forecast_url (forecast_params la lo) 8 out]
    /\ ((exists err,
           fst (get_weather_by_city E city t)
           = Ok [("city", city); ("resolved_name", n); ("country", c);
                 ("latitude", la); ("longitude", lo);
                 ("error", PStr err)])
        \/ (exists tc tf ts,
              fst (get_weather_by_city E city t)
              = Ok [("city", city); ("resolved_name", n); ("country", c);
                    ("latitude", la); ("longitude", lo);
                    ("temperature_c", tc); ("temperature_f", tf);
                    ("timestamp", ts)])).
Proof.
  intros Hgeo Hla Hlo.
  destruct (fetch_weather_returns E la lo t1) as [w Hw].
  eexists.
  unfold get_weather_by_city. step_m. rewrite Hgeo.
  cbn [get dict_get String.eqb Ascii.eqb Bool.eqb truthy].
  replace (is_none la) with false
    by (destruct la; solve [reflexivity | exfalso; apply Hla; reflexivity]).
  replace (is_none lo) with false
    by (destruct lo; solve [reflexivity | exfalso; apply Hlo; reflexivity]).
  cbn [orb]. rewrite Hw. split; [reflexivity|].
  destruct (fetch_weather_shape E la lo t1 w _ Hw)
    as [[err ->] | [tc [tf [ts ->]]]].
  - left. exists err. reflexivity.
  - right. exists tc, tf, ts. reflexivity.
Qed.

Lemma geocode_then_forecast_witness :
  exists out,
    snd (get_weather_by_city Sample.world (PStr "Tokyo") [])
    = [EvHttp geocoding_url (geocoding_params (PStr "Tokyo")) 8
         (requests_get Sample.world [] geocoding_url
            (geocoding_params (PStr "Tokyo")))]
      ++ [EvHttp forecast_url
            (forecast_params (PFloat (F64.of_decimal 356895 10000))
               (PFloat (F64.of_decimal 13969171 100000))) 8 out].
Proof.
  destruct (geocode_then_forecast Sample.world (PStr "Tokyo")
              (PStr "Tokyo") (PStr "Japan")
              (PFloat (F64.of_decimal 356895 10000))
              (PFloat (F64.of_decimal 13969171 100000)) []
              [EvHttp geocoding_url (geocoding_params (PStr "Tokyo")) 8
                 (requests_get Sample.world [] geocoding_url
                    (geocoding_params (PStr "Tokyo")))]
              eq_refl ltac:(discriminate) ltac:(discriminate))
    as [out [H _]].
  exists out. exact H.
Defined.

(** X10. A tool call reaches the outside through HTTP only, at most twice:
    nothing, the geocoding request alone, or the geocoding request followed
    by the forecast request; every request is given the timeout 8; a tool
    name other than get_weather_by_city makes no request at all and yields
    the failure unknown_tool with that name. *)
Theorem execute_tool_requests (E : env) (name : string) (args : dict)
    (t : trace) :
  exists d,
    snd (execute_tool E name args t) = t ++ d
    /\ forallb is_http d = true
    /\ (http_urls d = [] \/ http_urls d = [geocoding_url]
        \/ http_urls d = [geocoding_url; forecast_url])
    /\ Forall (fun timeout => timeout = 8) (http_timeouts d)
    /\ (name <> "get_weather_by_city" ->
        d = []
        /\ fst (execute_tool E name args t)
           = Ok [("error", PStr "unknown_tool"); ("name", PStr name)]).
Proof.
  assert (Hclose : forall d : trace,
             forallb is_http d = true ->
             (http_urls d = [] \/ http_urls d = [geocoding_url]
              \/ http_urls d = [geocoding_url; forecast_url]) ->
             Forall (fun timeout => timeout = 8) (http_timeouts d) ->
             name = "get_weather_by_city" ->
             forall r : result dict,
               forallb is_http d = true
               /\ (http_urls d = [] \/ http_urls d = [geocoding_url]
                   \/ http_urls d = [geocoding_url; forecast_url])
               /\ Forall (fun timeout => timeout = 8) (http_timeouts d)
               /\ (name <> "get_weather_by_city" ->
                   d = []
                   /\ r = Ok [("error", PStr "unknown_tool");
                              ("name", PStr name)])).
  { intros d H1 H2 H3 Hn r. repeat (split; [assumption|]).
    intro Hne. contradiction. }
  unfold execute_tool.
  destruct (String.eqb name "get_weather_by_city") eqn:Hname.
  - apply String.eqb_eq in Hname. step_m.
    destruct (bind_city args) as [city|e].
    + unfold get_weather_by_city. step_m.
      destruct (geocode_city_returns E city t) as [geo ->].
      destruct (truthy (get geo "error")).
      { eexists. split; [reflexivity|].
        apply Hclose; [reflexivity | right; left; reflexivity
                      | repeat constructor | assumption]. }
      destruct (is_none (get geo "latitude")
                || is_none (get geo "longitude")).
      { eexists. split; [reflexivity|].
        apply Hclose; [reflexivity | right; left; reflexivity
                      | repeat constructor | assumption]. }
      match goal with
      | |- context [fetch_weather E ?a ?b ?u] =>
          destruct (fetch_weather_returns E a b u) as [w ->]
      end.
      eexists. split; [rewrite <- app_assoc; reflexivity|].
      apply Hclose; [reflexivity | right; right; reflexivity
                    | repeat constructor | assumption].
    + exists []. split; [now rewrite app_nil_r|].
      apply Hclose; [reflexivity | left; reflexivity
                    | constructor | assumption].
  - apply String.eqb_neq in Hname. step_m.
    exists []. split; [now rewrite app_nil_r|].
    split; [reflexivity|]. split; [left; reflexivity|].
    split; [constructor|]. intros _. split; reflexivity.
Qed.

(* ====================================================================== *)
(** ** More on the conversation loop *)
(* ====================================================================== *)

Lemma rstrip_idempotent (s : string) : rstrip (rstrip s) = rstrip s.
Proof.
  induction s as [|c s IH]; [reflexivity|].
  cbn [rstrip]. destruct (rstrip s) as [|c' t] eqn:Hr.
  - destruct (is_space c) eqn:Hc; [reflexivity|].
    cbn [rstrip]. now rewrite Hc.
  - cbn [rstrip]. cbn [rstrip] in IH. rewrite IH. reflexivity.
Qed.

Lemma rstrip_head (c : ascii) (s : string) :
  is_space c = false -> exists w, rstrip (String c s) = String c w.
Proof.
  intro Hc. cbn [rstrip]. destruct (rstrip s).
  - rewrite Hc. eexists. reflexivity.
  - eexists. reflexivity.
Qed.

Lemma lstrip_head (s : string) :
  lstrip s = EmptyString
  \/ exists c w, lstrip s = String c w /\ is_space c = false.
Proof.
  induction s as [|c s IH]; [left; reflexivity|].
  cbn [lstrip]. destruct (is_space c) eqn:Hc; [exact IH|].
  right. exists c, s. auto.
Qed.

(** Stripping a stripped text changes nothing. *)
Lemma strip_idempotent (s : string) : strip (strip s) = strip s.
Proof.
  unfold strip. destruct (lstrip_head s) as [-> | [c [w [-> Hc]]]].
  - reflexivity.
  - destruct (rstrip_head c w Hc) as [w' Hw]. rewrite Hw.
    cbn [lstrip]. rewrite Hc. rewrite <- Hw. apply rstrip_idempotent.
Qed.

Section LoopInvariants.

Variable E : env.

(** What holds between iterations ([I]) and what holds when an exception
    leaves the loop ([J]). *)
Variables I J : state -> trace -> Prop.

Hypothesis input_keeps :
  forall line st t, I st t -> I st (t ++ [EvInput line]).
Hypothesis help_keeps :
  forall st t, I st t -> I st (t ++ [EvPrint OutHelp]).
Hypothesis turn_keeps :
  forall q st t,
    is_query q -> I st t ->
    match turn E q st t with
    | (Ok _, st', t') => I st' t'
    | (Raise _, st', t') => J st' t'
    end.

Lemma loop_body_keeps (line : option string) (st : state) (t : trace) :
  I st t ->
  match loop_body E line st t with
  | (Ok _, st', t') => I st' t'
  | (Raise _, st', t') => J st' t'
  end.
Proof.
  intro HI.
  cbv beta iota zeta delta [loop_body lbind run emit lret print].
  destruct line as [raw|]; [|now apply input_keeps].
  destruct (String.eqb (strip raw) EmptyString) eqn:Hempty;
    [now apply input_keeps|].
  destruct (mem_string (lower (strip raw)) exit_commands) eqn:Hexit;
    [now apply input_keeps|].
  destruct (mem_string (lower (strip raw)) help_commands) eqn:Hhelp.
  - now apply help_keeps, input_keeps.
  - assert (Hq : is_query (strip raw)).
    { repeat split; try assumption.
      - intro H. rewrite H in Hempty. discriminate.
      - apply strip_idempotent. }
    pose proof (turn_keeps (strip raw) st (t ++ [EvInput (Some raw)]) Hq
                  (input_keeps _ _ _ HI)) as Hturn.
    destruct (turn E (strip raw) st (t ++ [EvInput (Some raw)]))
      as [[[u|e] st'] t']; exact Hturn.
Qed.

Lemma while_true_keeps (lines : list string) :
  forall st t,
    I st t ->
    match while_true E lines st t with
    | (Ok _, st', t') => I st' t'
    | (Raise _, st', t') => J st' t'
    end.
Proof.
  induction lines as [|line rest IH]; intros st t HI.
  - cbn [while_true]. unfold lbind.
    pose proof (loop_body_keeps None st t HI) as Hb.
    destruct (loop_body E None st t) as [[[c|e] st'] t']; exact Hb.
  - cbn [while_true]. unfold lbind.
    pose proof (loop_body_keeps (Some line) st t HI) as Hb.
    destruct (loop_body E (Some line) st t) as [[[[|]|e] st'] t'].
    + now apply IH.
    + exact Hb.
    + exact Hb.
Qed.

End LoopInvariants.

(** The session, written out around its loop. *)
Lemma conversation_loop_unfold (E : env) (lines : list string) :
  conversation_loop E lines []
  = match while_true E lines initial_state [EvPrint OutBanner] with
    | (Ok _, st, t) =>
        (Ok tt, st,
         t ++ [EvPrint (OutTotalsLog (total_prompt st) (total_completion st)
                          (total_reasoning st) (total_tokens st));
               EvPrint (OutTotals (total_prompt st) (total_completion st)
                          (total_reasoning st) (total_tokens st))])
    | (Raise e, st, t) => (Raise e, st, t)
    end.
Proof.
  unfold conversation_loop.
  cbv beta iota zeta delta [lbind run print emit read].
  change ([] ++ [EvPrint OutBanner]) with [EvPrint OutBanner].
  destruct (while_true E lines initial_state [EvPrint OutBanner])
    as [[[u|e] st] t]; [|reflexivity].
  now rewrite <- app_assoc.
Qed.

(** Splits a turn into its nine ways of ending: the two paths that
    complete; then, from the last step back to the first, the second
    response without a choice, the second usage line raising, the second
    call raising, a tool invocation raising, the first response without a
    choice, the first usage line raising, the first call raising. *)
Ltac turn_cases E q st t :=
  rewrite (turn_unfold E q st t); cbv zeta;
  destruct (chat_create E t (messages (push st [User q])) true)
    as [first|e1] eqn:Hfirst;
  [ destruct (u_reasoning (extract_usage first)) as [n1|] eqn:Hn1;
    [ destruct (first_choice first) as [msg|e2] eqn:Hmsg;
      [ destruct (msg_tool_calls msg) as [|tc tcs] eqn:Htcs;
        [ | destruct (tool_round E q (tc :: tcs) _)
              as [[[calls tools]|e3] t3] eqn:Hround;
            [ destruct (chat_create E t3 _ false)
                as [second|e4] eqn:Hsecond;
              [ destruct (u_reasoning (extract_usage second))
                  as [n2|] eqn:Hn2;
                [ destruct (first_choice second)
                    as [final_msg|e5] eqn:Hfinal
                | ]
              | ]
            | ] ]
      | ]
    | ]
  | ].

Lemma exchanges_app (a b : list message) :
  exchanges a -> exchanges b -> exchanges (a ++ b).
Proof.
  intros Ha Hb. induction Ha as [|q c rest Hrest IH
                                  |q calls tools c rest Hne Hids Hrest IH].
  - exact Hb.
  - cbn [app]. now constructor.
  - cbn [app]. rewrite <- app_assoc. cbn [app]. now constructor.
Qed.

Lemma calls_nonempty (E : env) (q : string) (tc : tool_call)
    (tcs : list tool_call) (t t3 : trace) (calls : list call_entry)
    (tools : list message) :
  tool_round E q (tc :: tcs) t = (Ok (calls, tools), t3) ->
  calls <> []
  /\ map tool_call_id_of tools = map (fun e => Some (ce_id e)) calls.
Proof.
  intro H. destruct (tool_round_ids E q _ _ _ _ _ H) as [Hid [_ Htool]].
  split; [|exact Htool].
  intro Hnil. subst calls. discriminate Hid.
Qed.

Section Transcript.

Variable E : env.

Lemma turn_keeps_transcript (q : string) (st : state) (t : trace) :
  is_query q -> settled st t ->
  match turn E q st t with
  | (Ok _, st', t') => settled st' t'
  | (Raise _, st', t') => interrupted st' t'
  end.
Proof.
  intros _ [body [Hms Hbody]].
  assert (Hone : unanswered [User q]) by (left; eexists; reflexivity).
  turn_cases E q st t.
  - exists (body ++ [User q; Assistant (msg_content msg)]).
    split.
    + cbn [messages push credit]. rewrite Hms, <- !app_assoc. reflexivity.
    + apply exchanges_app; [assumption|]. repeat constructor.
  - destruct (calls_nonempty _ _ _ _ _ _ _ _ Hround) as [Hne Hids].
    exists (body ++ User q :: AssistantCalls calls
                 :: tools ++ [Assistant (msg_content final_msg)]).
    split.
    + cbn [messages push credit fst snd]. rewrite Hms, <- !app_assoc.
      reflexivity.
    + apply exchanges_app; [assumption|]. constructor; auto. constructor.
  - destruct (calls_nonempty _ _ _ _ _ _ _ _ Hround) as [Hne Hids].
    exists body, (User q :: AssistantCalls calls :: tools).
    split; [|split; [assumption|]].
    + cbn [messages push credit fst snd]. rewrite Hms, <- !app_assoc.
      reflexivity.
    + right. exists q, calls, tools. auto.
  - destruct (calls_nonempty _ _ _ _ _ _ _ _ Hround) as [Hne Hids].
    exists body, (User q :: AssistantCalls calls :: tools).
    split; [|split; [assumption|]].
    + cbn [messages push credit fst snd]. rewrite Hms, <- !app_assoc.
      reflexivity.
    + right. exists q, calls, tools. auto.
  - destruct (calls_nonempty _ _ _ _ _ _ _ _ Hround) as [Hne Hids].
    exists body, (User q :: AssistantCalls calls :: tools).
    split; [|split; [assumption|]].
    + cbn [messages push credit fst snd]. rewrite Hms, <- !app_assoc.
      reflexivity.
    + right. exists q, calls, tools. auto.
  - exists body, [User q]. split; [|auto].
    cbn [messages push credit]. now rewrite Hms.
  - exists body, [User q]. split; [|auto].
    cbn [messages push credit]. now rewrite Hms.
  - exists body, [User q]. split; [|auto].
    cbn [messages push credit]. now rewrite Hms.
  - exists body, [User q]. split; [|auto].
    cbn [messages push credit]. now rewrite Hms.
Qed.

End Transcript.

(** X11. The transcript keeps its shape over a whole session.  When the
    session ends by itself, the transcript is the system prompt followed by
    complete exchanges only: each a user turn answered by an assistant text
    turn, directly or after an assistant turn with tool calls and one tool
    turn per call under the call's id.  When an exception ends it, the
    transcript is such a sequence followed by the one unanswered turn: the
    user turn alone, or with its tool round. *)
Theorem transcript_shape (E : env) (lines : list string) :
  match conversation_loop E lines [] with
  | (Ok _, st, _) =>
      exists body,
        messages st = System system_prompt :: body /\ exchanges body
  | (Raise _, st, _) =>
      exists body p,
        messages st = System system_prompt :: body ++ p
        /\ exchanges body /\ unanswered p
  end.
Proof.
  rewrite conversation_loop_unfold.
  pose proof (while_true_keeps E settled interrupted
                ltac:(intros ? ? ? H; exact H)
                ltac:(intros ? ? H; exact H)
                (turn_keeps_transcript E)
                lines initial_state [EvPrint OutBanner]) as H.
  assert (H0 : settled initial_state [EvPrint OutBanner])
    by (exists []; split; [reflexivity | constructor]).
  specialize (H H0).
  destruct (while_true E lines initial_state [EvPrint OutBanner])
    as [[[u|e] st] t]; exact H.
Qed.

Lemma user_texts_app (a b : list message) :
  user_texts (a ++ b) = user_texts a ++ user_texts b.
Proof.
  induction a as [|m a IH]; [reflexivity|].
  destruct m; cbn [app user_texts]; rewrite IH; reflexivity.
Qed.

Lemma user_texts_tools (tools : list message) (ids : list (option string)) :
  map tool_call_id_of tools = ids ->
  Forall (fun i => i <> None) ids ->
  user_texts tools = [].
Proof.
  revert ids. induction tools as [|m tools IH]; intros ids Hmap Hall;
    [reflexivity|].
  destruct ids as [|i ids]; [discriminate|].
  injection Hmap as Hm Hrest. inversion Hall as [|? ? Hi Hall']; subst.
  destruct m; cbn [tool_call_id_of] in Hi; try (contradiction Hi; reflexivity).
  cbn [user_texts]. now apply (IH (map tool_call_id_of tools)).
Qed.

Lemma user_texts_round (E : env) (q : string) (tcs : list tool_call)
    (t t3 : trace) (calls : list call_entry) (tools : list message) :
  tool_round E q tcs t = (Ok (calls, tools), t3) -> user_texts tools = [].
Proof.
  intro H. destruct (tool_round_ids E q _ _ _ _ _ H) as [_ [_ Htool]].
  apply (user_texts_tools tools _ Htool).
  clear. induction calls; constructor; [discriminate | assumption].
Qed.

Lemma inputs_app (a b : trace) : inputs (a ++ b) = inputs a ++ inputs b.
Proof.
  induction a as [|ev a IH]; [reflexivity|].
  destruct ev; cbn [app inputs]; rewrite IH; reflexivity.
Qed.

Lemma http_only_no_input (d : trace) :
  forallb is_http d = true -> inputs d = [].
Proof.
  induction d as [|ev d IH]; [reflexivity|].
  destruct ev; cbn [forallb is_http andb inputs]; try discriminate.
  exact IH.
Qed.

(** What a turn leaves behind, however it ends: one more user turn, one or
    two model calls, and no console read. *)
Lemma turn_footprint (E : env) (q : string) (st : state) (t : trace) :
  exists d,
    trace_of (turn E q st t) = t ++ d
    /\ user_texts (messages (state_of (turn E q st t)))
       = user_texts (messages st) ++ [q]
    /\ (1 <= model_calls d <= 2)%nat
    /\ inputs d = [].
Proof.
  unfold trace_of, state_of.
  turn_cases E q st t; cbn [fst snd messages push credit];
    try (destruct (tool_round_http E q _ _ _ _ Hround) as [d [-> Hd]];
         destruct (http_only_quiet d Hd) as [_ Hcalls];
         pose proof (http_only_no_input d Hd) as Hin);
    try (pose proof (user_texts_round E q _ _ _ _ _ Hround) as Htools);
    eexists;
    (split; [rewrite <- ?app_assoc; reflexivity|]);
    rewrite ?user_texts_app, ?Htools; cbn [user_texts app];
    rewrite ?app_nil_r;
    (split; [reflexivity|]);
    repeat (rewrite ?model_calls_app, ?inputs_app;
            cbn [model_calls inputs app Nat.add]);
    rewrite ?Hcalls, ?Hin; cbn [Nat.add app];
    (split; [lia | reflexivity]).
Qed.

(** X12. Only queries reach the model: at every end of every session, each
    user turn of the transcript holds a text that is not blank, has no
    surrounding whitespace left and is neither an exit nor a help
    command. *)
Theorem user_turns_are_queries (E : env) (lines : list string) :
  Forall is_query
    (user_texts (messages (state_of (conversation_loop E lines [])))).
Proof.
  rewrite conversation_loop_unfold.
  pose (I := fun (st : state) (t : trace) =>
               Forall is_query (user_texts (messages st))).
  assert (H : match while_true E lines initial_state [EvPrint OutBanner] with
              | (Ok _, st', t') => I st' t'
              | (Raise _, st', t') => I st' t'
              end).
  { apply (while_true_keeps E I I); unfold I.
    - intros ? ? ? H; exact H.
    - intros ? ? H; exact H.
    - intros q st t Hq HI.
      destruct (turn_footprint E q st t) as [d [_ [Hu _]]].
      unfold state_of in Hu.
      destruct (turn E q st t) as [[[u|e] st'] t']; cbn [fst snd] in Hu;
        rewrite Hu; apply Forall_app; split; auto.
    - constructor. }
  destruct (while_true E lines initial_state [EvPrint OutBanner])
    as [[[u|e] st] t]; exact H.
Qed.

Lemma model_calls_snoc_quiet (t : trace) (ev : event) :
  (forall ms b out, ev <> EvModel ms b out) ->
  model_calls (t ++ [ev]) = model_calls t.
Proof.
  intro H. rewrite model_calls_app.
  destruct ev as [| ms b out | |]; cbn [model_calls]; try lia.
  exfalso. now apply (H ms b out).
Qed.

(** User turns never outnumber the lines still to be read. *)
Lemma user_turns_bounded (E : env) (lines : list string) :
  forall st t,
    (List.length (user_texts (messages (state_of (while_true E lines st t))))
     <= List.length (user_texts (messages st)) + List.length lines)%nat.
Proof.
  induction lines as [|line rest IH]; intros st t.
  - cbn [while_true]. unfold lbind, state_of.
    cbv beta iota zeta delta [loop_body lbind run emit lret].
    cbn [fst snd List.length]. lia.
  - cbn [while_true]. unfold lbind at 1.
    cbv beta iota zeta delta [loop_body lbind run emit lret print].
    destruct (String.eqb (strip line) EmptyString);
      [unfold state_of; cbn [fst snd List.length]; lia|].
    destruct (mem_string (lower (strip line)) exit_commands);
      [unfold state_of; cbn [fst snd List.length]; lia|].
    destruct (mem_string (lower (strip line)) help_commands).
    + cbn [fst snd]. specialize (IH st ((t ++ [EvInput (Some line)])
                                          ++ [EvPrint OutHelp])).
      cbn [List.length]. lia.
    + destruct (turn_footprint E (strip line) st
                  (t ++ [EvInput (Some line)])) as [d [_ [Hu _]]].
      unfold state_of in Hu.
      destruct (turn E (strip line) st (t ++ [EvInput (Some line)]))
        as [[[u|e] st'] t']; cbn [fst snd] in Hu.
      * specialize (IH st' t').
        rewrite Hu, length_app in IH. cbn [List.length] in *. lia.
      * unfold state_of. cbn [fst snd]. rewrite Hu, length_app.
        cbn [List.length]. lia.
Qed.

(** X14. Every user turn costs at least one model call and at most two: at
    every end of every session the number of model calls made lies between
    the number of user turns in the transcript and twice that number, and
    the number of user turns is at most the number of console lines. *)
Theorem model_call_budget (E : env) (lines : list string) :
  let s := conversation_loop E lines [] in
  let turns := List.length (user_texts (messages (state_of s))) in
  (turns <= model_calls (trace_of s) <= 2 * turns)%nat
  /\ (turns <= List.length lines)%nat.
Proof.
  cbv zeta. split.
  - rewrite conversation_loop_unfold.
    pose (I := fun (st : state) (t : trace) =>
                 (List.length (user_texts (messages st)) <= model_calls t
                  <= 2 * List.length (user_texts (messages st)))%nat).
    assert (H : match while_true E lines initial_state [EvPrint OutBanner]
                with
                | (Ok _, st', t') => I st' t'
                | (Raise _, st', t') => I st' t'
                end).
    { apply (while_true_keeps E I I); unfold I.
      - intros line st t H. rewrite model_calls_snoc_quiet;
          [exact H | discriminate].
      - intros st t H. rewrite model_calls_snoc_quiet;
          [exact H | discriminate].
      - intros q st t _ HI.
        destruct (turn_footprint E q st t) as [d [Ht [Hu [Hc _]]]].
        unfold state_of, trace_of in Ht, Hu.
        destruct (turn E q st t) as [[[u|e] st'] t'];
          cbn [fst snd] in Ht, Hu; subst t';
          rewrite Hu, length_app, model_calls_app;
          cbn [List.length]; lia.
      - cbn. lia. }
    unfold state_of, trace_of.
    destruct (while_true E lines initial_state [EvPrint OutBanner])
      as [[[u|e] st] t]; cbn [fst snd]; unfold I in H; [|exact H].
    rewrite model_calls_app. cbn [model_calls]. lia.
  - rewrite conversation_loop_unfold.
    pose proof (user_turns_bounded E lines initial_state
                  [EvPrint OutBanner]) as H.
    unfold state_of in *.
    destruct (while_true E lines initial_state [EvPrint OutBanner])
      as [[[u|e] st] t]; exact H.
Qed.

Lemma help_does_not_close (raw : string) :
  mem_string (lower (strip raw)) exit_commands = false ->
  String.eqb (strip raw) EmptyString = false ->
  closes (Some raw) = false.
Proof.
  intros H1 H2. unfold closes. now rewrite H1, H2.
Qed.

(** The console reads of the loop, on the lines still to come. *)
Lemma while_true_reads (E : env) (lines : list string) :
  forall st t,
  exists d j,
    trace_of (while_true E lines st t) = t ++ d
    /\ (j <= List.length lines)%nat
    /\ inputs d = firstn (S j) (map Some lines ++ [None])
    /\ Forall (fun l => closes l = false) (firstn j (map Some lines))
    /\ (forall u st' t',
          while_true E lines st t = (Ok u, st', t') ->
          closes (nth j (map Some lines ++ [None]) None) = true).
Proof.
  induction lines as [|line rest IH]; intros st t.
  - exists [EvInput None], O. cbn [while_true]. unfold lbind, trace_of.
    cbv beta iota zeta delta [loop_body lbind run emit lret].
    cbn. repeat split; auto.
  - cbn [while_true]. unfold lbind at 1.
    cbv beta iota zeta delta [loop_body lbind run emit lret print].
    destruct (String.eqb (strip line) EmptyString) eqn:Hempty.
    { exists [EvInput (Some line)], O. unfold trace_of. cbn [fst snd].
      repeat split; auto; try (cbn; lia).
      intros. cbn [nth map app]. unfold closes. now rewrite Hempty. }
    destruct (mem_string (lower (strip line)) exit_commands) eqn:Hexit.
    { exists [EvInput (Some line)], O. unfold trace_of. cbn [fst snd].
      repeat split; auto; try (cbn; lia).
      intros. cbn [nth map app]. unfold closes.
      rewrite Hexit. apply orb_true_r. }
    pose proof (help_does_not_close line Hexit Hempty) as Hopen.
    destruct (mem_string (lower (strip line)) help_commands).
    + cbn [fst snd].
      destruct (IH st ((t ++ [EvInput (Some line)]) ++ [EvPrint OutHelp]))
        as [d [j [Ht [Hj [Hin [Hpre Hlast]]]]]].
      exists (EvInput (Some line) :: EvPrint OutHelp :: d), (S j).
      split; [rewrite Ht, <- !app_assoc; reflexivity|].
      split; [cbn [List.length]; lia|].
      split; [cbn [inputs map app firstn]; now rewrite Hin|].
      split; [cbn [map firstn]; constructor; assumption|].
      intros u st' t' Hrun. cbn [map app nth]. eapply Hlast. exact Hrun.
    + destruct (turn_footprint E (strip line) st
                  (t ++ [EvInput (Some line)])) as [dt [Ht [_ [_ Hnone]]]].
      unfold trace_of in Ht.
      destruct (turn E (strip line) st (t ++ [EvInput (Some line)]))
        as [[[u|e] st1] t1]; cbn [fst snd] in Ht; subst t1.
      * destruct (IH st1 ((t ++ [EvInput (Some line)]) ++ dt))
          as [d [j [Ht' [Hj [Hin [Hpre Hlast]]]]]].
        exists (EvInput (Some line) :: dt ++ d), (S j).
        split; [rewrite Ht', <- !app_assoc; reflexivity|].
        split; [cbn [List.length]; lia|].
        split; [cbn [inputs map app firstn];
                now rewrite inputs_app, Hnone, Hin|].
        split; [cbn [map firstn]; constructor; assumption|].
        intros u' st' t' Hrun. cbn [map app nth]. eapply Hlast. exact Hrun.
      * exists (EvInput (Some line) :: dt), O. unfold trace_of. cbn [fst snd].
        split; [rewrite <- app_assoc; reflexivity|].
        split; [cbn [List.length]; lia|].
        split; [cbn [inputs map app firstn]; now rewrite Hnone|].
        split; [constructor|]. intros; discriminate.
Qed.

(** X13. The session reads the console script in order, one line per
    iteration, and never past the first line that closes it (a blank line,
    an exit command, or the end of input): the lines read are the first
    [j + 1] entries of the script followed by the end of input, none of the
    first [j] closes, and when the session ends by itself the last one read
    does. *)
Theorem console_reads_in_order (E : env) (lines : list string) :
  exists j,
    (j <= List.length lines)%nat
    /\ inputs (trace_of (conversation_loop E lines []))
       = firstn (S j) (map Some lines ++ [None])
    /\ Forall (fun l => closes l = false) (firstn j (map Some lines))
    /\ (forall u st t,
          conversation_loop E lines [] = (Ok u, st, t) ->
          closes (nth j (map Some lines ++ [None]) None) = true).
Proof.
  destruct (while_true_reads E lines initial_state [EvPrint OutBanner])
    as [d [j [Ht [Hj [Hin [Hpre Hlast]]]]]].
  exists j. rewrite conversation_loop_unfold.
  unfold trace_of in *.
  destruct (while_true E lines initial_state [EvPrint OutBanner])
    as [[[u|e] st] t] eqn:Hrun; cbn [fst snd] in *; subst t.
  - repeat split; auto.
    + rewrite inputs_app. cbn [inputs app]. rewrite Hin.
      now rewrite app_nil_r.
    + intros. eapply Hlast. reflexivity.
  - repeat split; auto; intros; discriminate.
Qed.

Lemma cumulative_app (a b : trace) :
  forall acc,
    cumulative_ok acc (a ++ b)
    <-> cumulative_ok acc a
        /\ cumulative_ok (acc + sum_by u_total (usage_log a)) b.
Proof.
  induction a as [|ev a IH]; intro acc.
  - cbn [app cumulative_ok usage_log sum_by fold_right].
    rewrite Z.add_0_r. tauto.
  - destruct ev as [| ms b' [c|e] | | []];
      cbn [app cumulative_ok usage_log sum_by fold_right];
      fold (sum_by u_total (usage_log a));
      rewrite IH; rewrite ?Z.add_assoc; tauto.
Qed.

Lemma cumulative_http (d : trace) (acc : Z) :
  forallb is_http d = true -> cumulative_ok acc d.
Proof.
  induction d as [|ev d IH]; [constructor|].
  destruct ev; cbn [forallb is_http andb]; try discriminate.
  exact IH.
Qed.

Section Cumulative.

Variable E : env.

Lemma tallied_snoc (st st' : state) (t d : trace) :
  tallied st t ->
  cumulative_ok (total_tokens st) d ->
  total_tokens st' = total_tokens st + sum_by u_total (usage_log d) ->
  tallied st' (t ++ d).
Proof.
  intros [Hok Hsum] Hd Hst. split.
  - apply cumulative_app. split; [assumption|].
    rewrite Z.add_0_l, <- Hsum. exact Hd.
  - rewrite usage_log_app, sum_by_app, <- Hsum. exact Hst.
Qed.

Lemma turn_keeps_tally (q : string) (st : state) (t : trace) :
  is_query q -> tallied st t ->
  match turn E q st t with
  | (Ok _, st', t') => tallied st' t'
  | (Raise _, st', t') => tallied st' t'
  end.
Proof.
  intros _ Htally.
  turn_cases E q st t;
    try (destruct (tool_round_http E q _ _ _ _ Hround) as [d [-> Hd]];
         destruct (http_only_quiet d Hd) as [Hlog _];
         pose proof (cumulative_http d) as Hhttp);
    rewrite <- ?app_assoc;
    (apply (tallied_snoc st); [exact Htally | |]);
    repeat (rewrite ?usage_log_app;
            cbn [app usage_log cumulative_ok sum_by fold_right
                 total_tokens push credit]);
    rewrite ?Hlog; cbn [app sum_by fold_right];
    repeat (rewrite cumulative_app;
            cbn [app usage_log cumulative_ok sum_by fold_right
                 total_tokens push credit]);
    rewrite ?Hlog; cbn [sum_by fold_right];
    try lia;
    repeat split; auto; try lia.
Qed.

End Cumulative.

(** X15. Every cumulative total the session prints, after a turn's answer
    or in the closing summary, is the sum of the [total] counts of all the
    model calls that had returned by then, in this turn or an earlier one;
    this holds on the whole output of every session, also of one that an
    exception ends. *)
Theorem printed_totals_are_running_sums (E : env) (lines : list string) :
  cumulative_ok 0 (trace_of (conversation_loop E lines [])).
Proof.
  rewrite conversation_loop_unfold.
  pose proof (while_true_keeps E (tallied) (tallied)) as H.
  specialize (H ltac:(intros line st t Ht;
                      apply (tallied_snoc st st t [EvInput line] Ht);
                      [exact Logic.I | cbn; lia])
                ltac:(intros st t Ht;
                      apply (tallied_snoc st st t [EvPrint OutHelp] Ht);
                      [exact Logic.I | cbn; lia])
                (turn_keeps_tally E)
                lines initial_state [EvPrint OutBanner]
                ltac:(split; [exact Logic.I | reflexivity])).
  unfold trace_of.
  destruct (while_true E lines initial_state [EvPrint OutBanner])
    as [[[u|e] st] t]; cbn [fst snd]; destruct H as [Hok Hsum];
    [|exact Hok].
  apply cumulative_app. split; [assumption|].
  cbn [cumulative_ok]. rewrite Z.add_0_l. auto.
Qed.

Lemma requests_app (a b : trace) :
  requests_ok (a ++ b) <-> requests_ok a /\ requests_ok b.
Proof.
  induction a as [|ev a IH]; [cbn; tauto|].
  destruct ev; cbn [app requests_ok]; rewrite IH; tauto.
Qed.

Lemma requests_http (d : trace) :
  forallb is_http d = true -> requests_ok d.
Proof.
  induction d as [|ev d IH]; [constructor|].
  destruct ev; cbn [forallb is_http andb]; try discriminate. exact IH.
Qed.

Lemma tools_end_with_tool (tools : list message) (calls : list call_entry) :
  calls <> [] ->
  map tool_call_id_of tools = map (fun e => Some (ce_id e)) calls ->
  exists front id content, tools = front ++ [Tool id content].
Proof.
  intros Hne Hmap.
  assert (Htne : tools <> []).
  { intro Hnil. subst tools. destruct calls; [contradiction | discriminate]. }
  destruct (exists_last Htne) as [front [m ->]].
  assert (Hin : In (tool_call_id_of m)
                  (map (fun e => Some (ce_id e)) calls)).
  { rewrite <- Hmap. apply in_map. apply in_or_app. right. now left. }
  apply in_map_iff in Hin. destruct Hin as [e [He _]].
  destruct m; try discriminate He.
  exists front. eexists. eexists. reflexivity.
Qed.

Section Requests.

Variable E : env.

Lemma turn_keeps_requests (q : string) (st : state) (t : trace) :
  is_query q -> well_asked st t ->
  match turn E q st t with
  | (Ok _, st', t') => well_asked st' t'
  | (Raise _, st', t') => well_asked st' t'
  end.
Proof.
  intros _ [Hreq [body Hms]].
  assert (Hfirst_ok : forall out,
             requests_ok [EvModel (messages (push st [User q])) true out]).
  { intro out. cbn [requests_ok messages push]. split; [|split; [|exact Logic.I]].
    - rewrite Hms. eexists. reflexivity.
    - exists (messages st), q. reflexivity. }
  turn_cases E q st t;
    try (pose proof (tool_round_http E q _ _ _ _ Hround) as [d [Ht3 Hd]];
         pose proof (requests_http d Hd) as Hhttp; rewrite Ht3);
    try (destruct (calls_nonempty _ _ _ _ _ _ _ _ Hround) as [Hne Hids];
         destruct (tools_end_with_tool tools calls Hne Hids)
           as [front [id [content Htools]]];
         assert (Hsecond_ok : forall out,
                    requests_ok
                      [EvModel
                         (messages
                            (push (push (credit (push st [User q])
                                           (extract_usage first))
                                     [AssistantCalls calls]) tools))
                         false out]);
         [ intro out; cbn [requests_ok messages push credit];
           split; [|split; [|exact Logic.I]];
           [ rewrite Hms; eexists; reflexivity
           | rewrite Htools; eexists; exists id, content;
             rewrite !app_assoc; reflexivity ]
         | ]);
    (split;
     [ repeat (apply requests_app; split); auto; exact Logic.I
     | cbn [messages push credit fst snd]; rewrite Hms; eexists;
       rewrite <- ?app_assoc; reflexivity ]).
Qed.

End Requests.

(** X16. Every request a session sends to the model starts with the system
    prompt.  The tool schema is offered exactly on the first request of a
    turn, whose last message is the turn's user turn; the request without
    the schema is sent only after a tool round and its last message is a
    tool turn. *)
Theorem model_requests_are_well_formed (E : env) (lines : list string) :
  requests_ok (trace_of (conversation_loop E lines [])).
Proof.
  rewrite conversation_loop_unfold.
  pose proof (while_true_keeps E (well_asked) (well_asked)) as H.
  specialize (H ltac:(intros line st t [Hr Hb]; split; [|exact Hb];
                      apply requests_app; split; [exact Hr | exact Logic.I])
                ltac:(intros st t [Hr Hb]; split; [|exact Hb];
                      apply requests_app; split; [exact Hr | exact Logic.I])
                (turn_keeps_requests E)
                lines initial_state [EvPrint OutBanner]
                ltac:(split; [exact Logic.I | eexists; reflexivity])).
  unfold trace_of.
  destruct (while_true E lines initial_state [EvPrint OutBanner])
    as [[[u|e] st] t]; cbn [fst snd]; destruct H as [Hok _];
    [|exact Hok].
  apply requests_app. split; [assumption | cbn; auto].
Qed.

Lemma turn_never_decreases (E : env) (st0 : state) (q : string)
    (st : state) (t : trace) :
  counts_nonneg E ->
  no_less st0 st ->
  match turn E q st t with
  | (Ok _, st', t') => no_less st0 st'
  | (Raise _, st', t') => no_less st0 st'
  end.
Proof.
  intros Hnn Hle. unfold no_less in *.
  turn_cases E q st t;
    try (pose proof (Hnn _ _ _ _ Hfirst) as [? [? [Hr1 ?]]];
         try rewrite Hn1 in Hr1);
    try (pose proof (Hnn _ _ _ _ Hsecond) as [? [? [Hr2 ?]]];
         try rewrite Hn2 in Hr2);
    cbn [total_prompt total_completion total_reasoning total_tokens
         push credit fst snd];
    unfold reasoning_credit; try rewrite Hn1; try rewrite Hn2; lia.
Qed.

(** X17. As long as the model service reports no negative count, the four
    running totals never decrease: not over the rest of the loop from any
    point, and so they are never negative at the end of a session. *)
Theorem totals_never_decrease (E : env) (lines : list string)
    (st : state) (t : trace) :
  counts_nonneg E ->
  no_less st (state_of (while_true E lines st t))
  /\ no_less initial_state (state_of (conversation_loop E lines [])).
Proof.
  intro Hnn.
  assert (Hloop : forall st0 st1 t1,
             no_less st0 st1 ->
             no_less st0 (state_of (while_true E lines st1 t1))).
  { intros st0 st1 t1 H01.
    pose proof (while_true_keeps E (fun s _ => no_less st0 s)
                  (fun s _ => no_less st0 s)
                  ltac:(intros ? ? ? H; exact H)
                  ltac:(intros ? ? H; exact H)
                  ltac:(intros q s u _ H;
                        exact (turn_never_decreases E st0 q s u Hnn H))
                  lines st1 t1 H01) as H.
    unfold state_of.
    destruct (while_true E lines st1 t1) as [[[u|e] st'] t']; exact H. }
  split.
  - apply Hloop. unfold no_less. lia.
  - rewrite conversation_loop_unfold.
    pose proof (Hloop initial_state initial_state [EvPrint OutBanner]
                  ltac:(unfold no_less; lia)) as H.
    unfold state_of in *.
    destruct (while_true E lines initial_state [EvPrint OutBanner])
      as [[[u|e] st'] t']; exact H.
Qed.

Lemma totals_never_decrease_witness :
  no_less initial_state
    (state_of (conversation_loop Sample.garbled ["Tokyo"] [])).
Proof.
  refine (proj2 (totals_never_decrease Sample.garbled ["Tokyo"]
                   initial_state [] _)).
  intros t ms b c H. injection H as <-.
  unfold nonneg_usage. cbn. lia.
Defined.

(** X18. Tool arguments the loop cannot use end the turn with an
    exception, before any tool runs.  When the usage line has folded the
    first response's counts (its reasoning entry is a number) and the first
    invocation's arguments are not valid JSON ([json.loads] raises), decode
    to something that is no object ([setdefault] is missing), or name a
    keyword other than city for get_weather_by_city, the exception leaves
    the turn: the transcript has gained the user turn only, the first
    call's usage is already in the totals, and neither an HTTP request nor
    a second model call is made. *)
Theorem unusable_arguments_end_the_turn (E : env) (q : string) (st : state)
    (t : trace) (first : completion) (msg : chat_message) (tc : tool_call)
    (tcs : list tool_call) (e : pyexn) (n : Z) :
  chat_create E t (messages st ++ [User q]) true = Ok first ->
  u_reasoning (extract_usage first) = Some n ->
  first_choice first = Ok msg ->
  msg_tool_calls msg = tc :: tcs ->
  parse_arguments E tc = Raise e
  \/ (exists v, parse_arguments E tc = Ok v /\ backfill v q = Raise e)
  \/ (exists v args,
        parse_arguments E tc = Ok v /\ backfill v q = Ok args
        /\ fn_name tc = "get_weather_by_city"
        /\ bind_city args = Raise e) ->
  turn E q st t
  = (Raise e, credit (push st [User q]) (extract_usage first),
     t ++ [EvModel (messages st ++ [User q]) true (Ok first);
           EvPrint (OutUsageFirst (extract_usage first))])
  /\ (forall v, (forall d, v <> PDict d) -> exists e', backfill v q = Raise e').
Proof.
  intros Hfirst Hcount Hmsg Htcs Hbad. split.
  - rewrite turn_unfold. cbv zeta. cbn [messages push].
    rewrite Hfirst, Hcount, Hmsg, Htcs.
    assert (Hround : forall u,
               tool_round E q (tc :: tcs) u = (Raise e, u)).
    { intro u. cbn [tool_round]. unfold bind at 1. unfold dispatch.
      step_m.
      destruct Hbad as [Hp | [[v [Hp Hb]] | [v [args [Hp [Hb [Hn Hc]]]]]]].
      - now rewrite Hp.
      - now rewrite Hp, Hb.
      - rewrite Hp, Hb. unfold execute_tool. rewrite Hn.
        cbn [String.eqb Ascii.eqb Bool.eqb]. step_m. now rewrite Hc. }
    rewrite Hround. now rewrite <- app_assoc.
  - intros v Hv. destruct v; try (eexists; reflexivity).
    exfalso. now apply (Hv d).
Qed.

Lemma unusable_arguments_end_the_turn_witness :
  exists e,
    turn Sample.garbled "Tokyo" initial_state []
    = (Raise e,
       credit (push initial_state [User "Tokyo"])
         {| u_prompt := 50; u_completion := 12; u_reasoning := Some 0;
            u_total := 62 |},
       [EvModel (messages initial_state ++ [User "Tokyo"]) true
          (chat_create Sample.garbled [] [] true);
        EvPrint (OutUsageFirst {| u_prompt := 50; u_completion := 12;
                                  u_reasoning := Some 0; u_total := 62 |})]).
Proof.
  eexists.
  refine (proj1 (unusable_arguments_end_the_turn Sample.garbled "Tokyo"
                   initial_state [] _ _ _ _ _ 0 eq_refl eq_refl eq_refl
                   eq_refl _)).
  left. reflexivity.
Defined.

(* ====================================================================== *)
(** ** More on Celsius to Fahrenheit *)
(* ====================================================================== *)

Local Open Scope Z_scope.

Lemma rne_scale (k n d : Z) :
  0 < k -> 0 < d -> rne (k * n) (k * d) = rne n d.
Proof.
  intros Hk Hd. unfold rne.
  rewrite Z.div_mul_cancel_l by lia.
  rewrite Z.mul_mod_distr_l by lia.
  destruct (Z.ltb_spec (2 * (n mod d)) d);
    destruct (Z.ltb_spec (2 * (k * (n mod d))) (k * d)); try nia.
  destruct (Z.ltb_spec d (2 * (n mod d)));
    destruct (Z.ltb_spec (k * d) (2 * (k * (n mod d)))); try nia;
    reflexivity.
Qed.

(** The rounding depends on the quotient, not on how it is written. *)
Lemma round_mag_scale (k n d : Z) :
  0 < k -> 0 < d -> round_mag (k * n) (k * d) = round_mag n d.
Proof.
  intros Hk Hd. unfold round_mag.
  rewrite Z.div_mul_cancel_l by lia.
  destruct (Z.ltb_spec (n / d) (2 ^ prec)) as [Hlow|Hhigh];
    [now apply rne_scale|].
  destruct (high_binade _ Hhigh) as [Hs _].
  rewrite <- Z.mul_assoc. rewrite rne_scale; [reflexivity | lia |].
  apply Z.mul_pos_pos; [lia|]. apply Z.pow_pos_nonneg; lia.
Qed.

(** Rounding a binary64 magnitude gives it back. *)
Lemma round_mag_exact (m d : Z) :
  valid_mag m = true -> 0 < d -> round_mag (m * d) d = m.
Proof.
  intros Hv Hd.
  assert (Hq : m * d / d = m) by (apply Z.div_mul; lia).
  unfold valid_mag in Hv.
  apply andb_true_iff in Hv. destruct Hv as [Hrange Hgrid].
  apply andb_true_iff in Hrange. destruct Hrange as [H0 Htop].
  apply Z.leb_le in H0.
  destruct (Z.ltb_spec m (2 ^ prec)) as [Hlow|Hhigh].
  - rewrite round_mag_low by (rewrite Hq; assumption).
    rewrite rne_exact; [assumption | assumption | apply Z.mod_mul; lia].
  - cbn [orb] in Hgrid. apply Z.eqb_eq in Hgrid.
    rewrite round_mag_high by (rewrite Hq; assumption).
    rewrite Hq. destruct (high_binade _ Hhigh) as [Hs _].
    set (s := Z.log2 m - (prec - 1)) in *.
    assert (Hp : 0 < 2 ^ s) by (apply Z.pow_pos_nonneg; lia).
    assert (Hm : m = (m / 2 ^ s) * 2 ^ s).
    { pose proof (Z.div_mod m (2 ^ s) ltac:(lia)). lia. }
    assert (Hmd : m * d = (m / 2 ^ s) * (d * 2 ^ s))
      by (rewrite Hm at 1; ring).
    rewrite rne_exact.
    + rewrite Hmd, Z.div_mul by lia. lia.
    + lia.
    + rewrite Hmd. apply Z.mod_mul. lia.
Qed.

(** A whole number below [2^53] is a binary64 number. *)
Lemma valid_mag_whole (k : Z) :
  0 <= k < 2 ^ prec -> valid_mag (k * unit_one) = true.
Proof.
  intros [Hk0 Hk].
  pose proof unit_one_pos as HU.
  destruct (Z.eq_dec k 0) as [->|Hne]; [reflexivity|].
  unfold valid_mag.
  apply andb_true_iff; split; [apply andb_true_iff; split|].
  - apply Z.leb_le. nia.
  - apply Z.ltb_lt. pose proof top_above_small.
    assert (k * unit_one <= 2 ^ prec * unit_one)
      by (apply Z.mul_le_mono_nonneg_r; lia).
    assert (0 < 2 ^ prec * unit_one)
      by (apply Z.mul_pos_pos; [apply Z.pow_pos_nonneg; unfold prec|]; lia).
    lia.
  - apply orb_true_iff. right. apply Z.eqb_eq.
    unfold unit_one at 1 2. rewrite Z.log2_mul_pow2 by lia.
    assert (Hlog : 0 <= Z.log2 k < prec).
    { split; [apply Z.log2_nonneg|]. apply Z.log2_lt_pow2; lia. }
    set (e := 1074 + Z.log2 k - (prec - 1)).
    assert (He : 0 <= e <= 1074) by (unfold e, prec in *; lia).
    replace (2 ^ 1074) with (2 ^ (1074 - e) * 2 ^ e)
      by (rewrite <- Z.pow_add_r by lia; f_equal; lia).
    rewrite Z.mul_assoc. apply Z.mod_mul.
    assert (0 < 2 ^ e) by (apply Z.pow_pos_nonneg; lia). lia.
Qed.

(** A whole number below [2^53] converts to a float exactly. *)
Lemma round_whole (s : bool) (k : Z) (d : Z) :
  0 <= k < 2 ^ prec -> 0 < d ->
  round s (k * unit_one * d) d = Fin s (Z.to_N (k * unit_one)).
Proof.
  intros Hk Hd. pose proof (valid_mag_whole k Hk) as Hv.
  unfold round. rewrite (round_mag_exact _ d Hv Hd).
  unfold pack. unfold valid_mag in Hv.
  apply andb_true_iff in Hv. destruct Hv as [Hrange _].
  apply andb_true_iff in Hrange. destruct Hrange as [_ Htop].
  now rewrite Htop.
Qed.

Lemma of_Z_whole (n : Z) :
  Z.abs n < 2 ^ prec ->
  of_Z n = Fin (n <? 0) (Z.to_N (Z.abs n * unit_one)).
Proof.
  intro Hn. unfold of_Z.
  replace (Z.abs n * unit_one) with (Z.abs n * unit_one * 1) at 1 by lia.
  apply round_whole; lia.
Qed.

(** The quotient [n * 9 / 5] comes out the same whether [n] is multiplied
    as an int and divided exactly, or converted to a float first. *)
Lemma nine_fifths_whole (n : Z) :
  9 * Z.abs n < 2 ^ prec ->
  fdiv (fmul (of_Z n) (of_Z 9)) (of_Z 5)
  = round (n <? 0) (Z.abs (n * 9) * unit_one) 5
  /\ exists m, round (n <? 0) (Z.abs (n * 9) * unit_one) 5 = Fin (n <? 0) m.
Proof.
  intro Hn. pose proof unit_one_pos as HU.
  assert (Hp : 0 < 2 ^ prec) by (apply Z.pow_pos_nonneg; unfold prec; lia).
  assert (Habs : Z.abs (n * 9) = 9 * Z.abs n) by lia.
  split.
  - rewrite of_Z_whole by lia. rewrite nine_eq, five_eq.
    unfold fmul. rewrite !Z2N.id by nia.
    replace (Z.abs n * unit_one * (9 * unit_one))
      with (9 * Z.abs n * unit_one * unit_one) by ring.
    rewrite round_whole by lia. rewrite xorb_false_r.
    unfold fdiv. rewrite scaled_nonzero by lia.
    rewrite !Z2N.id by nia. rewrite xorb_false_r.
    unfold round. rewrite Habs.
    replace (9 * Z.abs n * unit_one * unit_one)
      with (unit_one * (9 * Z.abs n * unit_one)) by ring.
    replace (5 * unit_one) with (unit_one * 5) by ring.
    now rewrite round_mag_scale by lia.
  - unfold round, pack.
    pose proof (round_mag_upper (Z.abs (n * 9) * unit_one) 5
                  ltac:(lia) ltac:(nia)) as Hup.
    assert (Hq : Z.abs (n * 9) * unit_one / 5 <= 2 ^ prec * unit_one).
    { apply Z.lt_succ_r. apply Z.div_lt_upper_bound; [lia|].
      rewrite Habs.
      assert (9 * Z.abs n * unit_one <= 2 ^ prec * unit_one)
        by (apply Z.mul_le_mono_nonneg_r; lia).
      assert (0 < 2 ^ prec * unit_one) by (apply Z.mul_pos_pos; lia).
      lia. }
    pose proof top_above_small as Htop.
    assert (0 < 2 ^ prec * unit_one) by (apply Z.mul_pos_pos; lia).
    destruct (Z.ltb_spec (round_mag (Z.abs (n * 9) * unit_one) 5) top);
      [eexists; reflexivity | lia].
Qed.

(** X19. A whole-number Celsius reading converts the same way whether it
    arrives as an int or as a float: for every int [n] with
    [9 * |n| < 2^53], [c_to_f(n)] equals [c_to_f(float(n))], and neither
    raises. *)
Theorem c_to_f_int_agrees_with_float (n : Z) :
  9 * Z.abs n < 2 ^ prec ->
  c_to_f (PInt n) = c_to_f (PFloat (of_Z n))
  /\ exists r, c_to_f (PInt n) = Ok (PFloat r).
Proof.
  intro Hn.
  destruct (nine_fifths_whole n Hn) as [Hsame [m Hfin]].
  assert (Heq : c_to_f (PInt n) = c_to_f (PFloat (of_Z n))).
  { unfold c_to_f. cbn [py_mul rbind]. unfold py_truediv.
    change (Z.eqb 5 0) with false. cbv iota.
    unfold int_truediv. change (Z.abs 5) with 5.
    change (5 <? 0) with false. rewrite xorb_false_r.
    replace (n * 9 <? 0) with (n <? 0)
      by (destruct (Z.ltb_spec n 0), (Z.ltb_spec (n * 9) 0); lia).
    rewrite Hsame, Hfin. reflexivity. }
  split; [exact Heq|].
  rewrite Heq. destruct (c_to_f_returns (of_Z n)) as [r [Hr _]].
  exists r. exact Hr.
Qed.

Lemma c_to_f_int_agrees_with_float_witness :
  c_to_f (PInt 20) = c_to_f (PFloat (of_Z 20)).
Proof.
  apply (c_to_f_int_agrees_with_float 20). vm_compute. reflexivity.
Defined.

(* ====================================================================== *)
(** ** The loop and the weather services *)
(* ====================================================================== *)

Local Open Scope list_scope.

Lemma invocations_app (a b : trace) :
  invocations (a ++ b) = (invocations a + invocations b)%nat.
Proof.
  induction a as [|ev a IH]; [reflexivity|].
  destruct ev as [| ms [|] [c|e] | |]; cbn [app invocations]; rewrite IH; lia.
Qed.

Lemma http_urls_app (a b : trace) :
  http_urls (a ++ b) = http_urls a ++ http_urls b.
Proof.
  induction a as [|ev a IH]; [reflexivity|].
  destruct ev; cbn [app http_urls]; rewrite IH; reflexivity.
Qed.

Lemma http_only_no_invocation (d : trace) :
  forallb is_http d = true -> invocations d = O.
Proof.
  induction d as [|ev d IH]; [reflexivity|].
  destruct ev; cbn [forallb is_http andb invocations]; try discriminate.
  exact IH.
Qed.

(** One tool call: at most two HTTP requests. *)
Lemma execute_tool_two_requests (E : env) (name : string) (args : dict)
    (t : trace) :
  exists d,
    snd (execute_tool E name args t) = t ++ d
    /\ (List.length (http_urls d) <= 2)%nat.
Proof.
  unfold execute_tool.
  destruct (String.eqb name "get_weather_by_city").
  - step_m. destruct (bind_city args) as [city|e].
    + unfold get_weather_by_city. step_m.
      destruct (geocode_city_returns E city t) as [geo ->].
      destruct (truthy (get geo "error")).
      { eexists. split; [reflexivity|]. cbn. lia. }
      destruct (is_none (get geo "latitude")
                || is_none (get geo "longitude")).
      { eexists. split; [reflexivity|]. cbn. lia. }
      match goal with
      | |- context [fetch_weather E ?a ?b ?u] =>
          destruct (fetch_weather_returns E a b u) as [w ->]
      end.
      eexists. split; [rewrite <- app_assoc; reflexivity|]. cbn. lia.
    + exists []. split; [now rewrite app_nil_r | cbn; lia].
  - step_m. exists []. split; [now rewrite app_nil_r | cbn; lia].
Qed.

Lemma dispatch_two_requests (E : env) (q : string) (tc : tool_call)
    (t : trace) :
  exists d,
    snd (dispatch E q tc t) = t ++ d
    /\ (List.length (http_urls d) <= 2)%nat.
Proof.
  unfold dispatch. step_m.
  destruct (parse_arguments E tc) as [parsed|e];
    [|exists []; split; [now rewrite app_nil_r | cbn; lia]].
  destruct (backfill parsed q) as [args|e];
    [|exists []; split; [now rewrite app_nil_r | cbn; lia]].
  destruct (execute_tool_two_requests E (fn_name tc) args t) as [d [Hd Hn]].
  destruct (execute_tool E (fn_name tc) args t) as [[res|e] t1];
    cbn [snd] in Hd; subst t1; exists d; auto.
Qed.

Lemma tool_round_requests (E : env) (q : string) (tcs : list tool_call) :
  forall t,
  exists d,
    snd (tool_round E q tcs t) = t ++ d
    /\ (List.length (http_urls d) <= 2 * List.length tcs)%nat.
Proof.
  induction tcs as [|tc tcs IH]; intro t.
  - exists []. cbn. split; [now rewrite app_nil_r | lia].
  - cbn [tool_round]. unfold bind at 1.
    destruct (dispatch_two_requests E q tc t) as [d1 [Hd1 Hn1]].
    destruct (dispatch E q tc t) as [[p|e] t1]; cbn [snd] in Hd1; subst t1.
    + unfold bind at 1. destruct (IH (t ++ d1)) as [d2 [Hd2 Hn2]].
      destruct (tool_round E q tcs (t ++ d1)) as [[r|e] t2];
        cbn [snd] in Hd2; subst t2; step_m;
        exists (d1 ++ d2);
        (split; [now rewrite app_assoc|]);
        rewrite http_urls_app, length_app; cbn [List.length]; lia.
    + exists d1. split; [reflexivity|]. cbn [List.length]. lia.
Qed.

Lemma turn_keeps_requests_paid (E : env) (q : string) (st : state)
    (t : trace) :
  (List.length (http_urls t) <= 2 * invocations t)%nat ->
  (List.length (http_urls (trace_of (turn E q st t)))
   <= 2 * invocations (trace_of (turn E q st t)))%nat.
Proof.
  intro Hinv. unfold trace_of.
  rewrite (turn_unfold E q st t). cbv zeta.
  destruct (chat_create E t (messages (push st [User q])) true)
    as [first|e1] eqn:Hfirst.
  2:{ cbn [snd]. rewrite http_urls_app, invocations_app, length_app.
      cbn. lia. }
  destruct (u_reasoning (extract_usage first)) as [n1|].
  2:{ cbn [snd]. rewrite http_urls_app, invocations_app, length_app.
      cbn [http_urls invocations List.length]. lia. }
  destruct (first_choice first) as [msg|e2] eqn:Hmsg.
  2:{ cbn [snd]. rewrite !http_urls_app, !invocations_app, !length_app.
      cbn [http_urls invocations List.length]. rewrite Hmsg. lia. }
  destruct (msg_tool_calls msg) as [|tc tcs] eqn:Htcs.
  { cbn [snd]. rewrite !http_urls_app, !invocations_app, !length_app.
    cbn [http_urls invocations List.length]. rewrite Hmsg, Htcs.
    cbn [List.length]. lia. }
  match goal with
  | |- context [tool_round E q (tc :: tcs) ?u] =>
      destruct (tool_round_requests E q (tc :: tcs) u) as [d [Hd Hn]];
      destruct (tool_round_http E q (tc :: tcs) u
                  (fst (tool_round E q (tc :: tcs) u))
                  (snd (tool_round E q (tc :: tcs) u))
                  ltac:(now destruct (tool_round E q (tc :: tcs) u)))
        as [d' [Hd' Hhttp]];
      destruct (tool_round E q (tc :: tcs) u) as [[[calls tools]|e3] t3]
  end;
    cbn [snd fst] in Hd, Hd'; subst t3; apply app_inv_head in Hd'; subst d';
    pose proof (http_only_no_invocation d Hhttp) as Hzero.
  - destruct (chat_create E _ _ false) as [second|e4];
      [destruct (u_reasoning (extract_usage second)) as [n2|];
       [destruct (first_choice second) as [final_msg|e5]|]|];
      cbn [snd];
      repeat (rewrite ?http_urls_app, ?invocations_app, ?length_app;
              cbn [http_urls invocations List.length app]);
      rewrite ?Hmsg, ?Htcs, ?Hzero; cbn [List.length] in *; lia.
  - cbn [snd].
    repeat (rewrite ?http_urls_app, ?invocations_app, ?length_app;
            cbn [http_urls invocations List.length app]);
      rewrite ?Hmsg, ?Htcs, ?Hzero; cbn [List.length] in *; lia.
Qed.

(** X21. The agent contacts the weather services only on the model's
    request: over every session the number of HTTP requests is at most
    twice the number of tool invocations the model asked for when the tool
    was on offer, so a session in which the model never asks for the tool
    makes no HTTP request at all. *)
Theorem http_only_on_request (E : env) (lines : list string) :
  let t := trace_of (conversation_loop E lines []) in
  (List.length (http_urls t) <= 2 * invocations t)%nat
  /\ (invocations t = O -> http_urls t = []).
Proof.
  cbv zeta.
  assert (H : (List.length
                 (http_urls (trace_of (conversation_loop E lines [])))
               <= 2 * invocations
                        (trace_of (conversation_loop E lines [])))%nat).
  { rewrite conversation_loop_unfold.
    pose (I := fun (st : state) (t : trace) =>
                 (List.length (http_urls t) <= 2 * invocations t)%nat).
    assert (Hloop : match while_true E lines initial_state
                            [EvPrint OutBanner] with
                    | (Ok _, st', t') => I st' t'
                    | (Raise _, st', t') => I st' t'
                    end).
    { apply (while_true_keeps E I I); unfold I.
      - intros line st t H.
        rewrite http_urls_app, invocations_app, length_app. cbn. lia.
      - intros st t H.
        rewrite http_urls_app, invocations_app, length_app. cbn. lia.
      - intros q st t _ H.
        pose proof (turn_keeps_requests_paid E q st t H) as Hturn.
        unfold trace_of in Hturn.
        destruct (turn E q st t) as [[[u|e] st'] t']; exact Hturn.
      - cbn. lia. }
    unfold trace_of.
    destruct (while_true E lines initial_state [EvPrint OutBanner])
      as [[[u|e] st] t]; cbn [snd]; unfold I in Hloop; [|exact Hloop].
    rewrite http_urls_app, invocations_app, length_app. cbn. lia. }
  split; [exact H|].
  intro Hzero. rewrite Hzero in H.
  destruct (http_urls (trace_of (conversation_loop E lines [])));
    [reflexivity | cbn in H; lia].
Qed.

(** X20. The transcript only grows: from any point of the loop on, whatever
    lines follow and however the loop ends, the transcript at the end is
    the transcript at that point with turns appended; no turn is removed
    or rewritten. *)
Theorem transcript_only_grows (E : env) (lines : list string)
    (st : state) (t : trace) :
  exists added,
    messages (state_of (while_true E lines st t)) = messages st ++ added.
Proof.
  pose (I := fun (s : state) (_ : trace) =>
               exists added, messages s = messages st ++ added).
  assert (H : match while_true E lines st t with
              | (Ok _, st', t') => I st' t'
              | (Raise _, st', t') => I st' t'
              end).
  { apply (while_true_keeps E I I); unfold I.
    - intros ? ? ? H; exact H.
    - intros ? ? H; exact H.
    - intros q s u _ [added Hs].
      rewrite (turn_unfold E q s u). cbv zeta.
      destruct (chat_create E u (messages (push s [User q])) true)
        as [first|e1];
        [destruct (u_reasoning (extract_usage first)) as [n1|];
         [destruct (first_choice first) as [msg|e2];
          [destruct (msg_tool_calls msg) as [|tc tcs];
           [|destruct (tool_round E q (tc :: tcs) _)
               as [[[calls tools]|e3] t3];
             [destruct (chat_create E t3 _ false) as [second|e4];
              [destruct (u_reasoning (extract_usage second)) as [n2|];
               [destruct (first_choice second) as [final_msg|e5]|]|]|]]|]|]|];
        cbn [messages push credit fst snd]; rewrite Hs;
        rewrite <- ?app_assoc; eexists; reflexivity.
    - exists []. now rewrite app_nil_r. }
  unfold state_of.
  destruct (while_true E lines st t) as [[[u|e] st'] t']; exact H.
Qed.
